(** * GPS C/A (Gold) code generator: [ca_code_gen.py]

    The two generator functions of the module, [lfsr] and [ca_code_gen],
    are embedded over a store of Python list objects.  A Python list is a
    mutable object reached through references, and [lfsr] works on the
    very list object it is given ([state = seed] binds a second name to
    it), so lists live in a store and the generators hold locations. *)

From Stdlib Require Import ZArith Lia List.
From stdpp Require Import base numbers option list gmap strings pretty.

Local Open Scope Z_scope.

(** ** Store of list objects, outcomes, and the monad of statements *)

Module Py.

(** A location names one list object. *)
Abbreviation loc := nat (only parsing).

(** The store: the i-th list object ever created sits at index i.  Python
    ints are unbounded, hence [Z]. *)
Abbreviation heap := (list (list Z)) (only parsing).

(** The exceptions the module can meet. *)
Inductive exn :=
| KeyError (key : Z)
| IndexError
| StopIteration.

(** What evaluating an expression gives: a value, a raised exception, or
    [Stuck] when a reference names no object of the store (references
    obtained from [alloc] never do). *)
Inductive outcome (A : Type) :=
| Ok (a : A)
| Raise (e : exn)
| Stuck.
Arguments Ok {A} a.
Arguments Raise {A} e.
Arguments Stuck {A}.

Definition M (A : Type) : Type := heap -> outcome A * heap.

Definition ret {A} (a : A) : M A := fun h => (Ok a, h).

Definition bind {A B} (m : M A) (k : A -> M B) : M B :=
  fun h =>
    match m h with
    | (Ok a, h') => k a h'
    | (Raise e, h') => (Raise e, h')
    | (Stuck, h') => (Stuck, h')
    end.

Definition raise {A} (e : exn) : M A := fun h => (Raise e, h).

(** A list display or [[1] * 10]: a new object after all existing ones. *)
Definition alloc (v : list Z) : M loc :=
  fun h => (Ok (length h), h ++ [v]).

Definition load (l : loc) : M (list Z) :=
  fun h =>
    match h !! l with
    | Some v => (Ok v, h)
    | None => (Stuck, h)
    end.

Definition store (l : loc) (v : list Z) : M unit :=
  fun h => (Ok tt, <[l := v]> h).

End Py.

Import Py.

Notation "x <- m ;; k" := (bind m (fun x => k))
  (at level 100, m at next level, right associativity).
Notation "m ;;; k" := (bind m (fun _ => k))
  (at level 100, right associativity).

(** ** List methods used by [lfsr] *)

(** [l.pop()] on the value of the list: the last element and the rest,
    nothing for the empty list (an [IndexError] in Python). *)
Definition pop (l : list Z) : option (Z * list Z) :=
  match last l with
  | Some x => Some (x, removelast l)
  | None => None
  end.

(** [state.insert(0, x)]: in place, on the object at [l]. *)
Definition list_insert_front (l : loc) (x : Z) : M unit :=
  v <- load l ;; store l (x :: v).

(** [state.pop()]: in place, on the object at [l]. *)
Definition list_pop (l : loc) : M Z :=
  v <- load l ;;
  match pop v with
  | Some (x, v') => store l v' ;;; ret x
  | None => raise IndexError
  end.

(** ** [lfsr] *)

(** The loop
<<
    feedback = 0
    for bit, tap in zip(state, taps):
        if tap == 1:
            feedback ^= bit
>>
    [zip] stops at the shorter of the two lists. *)
Definition feedback (state taps : list Z) : Z :=
  foldl (fun fb bt => if snd bt =? 1 then Z.lxor fb (fst bt) else fb)
        0 (zip state taps).

(** A generator object made by [lfsr(seed, taps)].  Calling the generator
    function runs none of its body; the first [next] runs [state = seed],
    which only gives the seed object a second name, so a started and a
    not yet started generator are the same [LfsrLive].  [LfsrDone] is a
    generator whose body was left by an exception. *)
Inductive lfsr_gen :=
| LfsrLive (state taps : loc)
| LfsrDone.

Definition lfsr (seed taps : loc) : M lfsr_gen :=
  ret (LfsrLive seed taps).

(** One turn of [while True], up to and including the [yield]. *)
Definition lfsr_body (state taps : loc) : M Z :=
  s <- load state ;;
  t <- load taps ;;
  list_insert_front state (feedback s t) ;;;
  list_pop state.

(** [next(g)] for a generator [g] of [lfsr]. *)
Definition next_lfsr (g : lfsr_gen) (h : heap) : outcome Z * lfsr_gen * heap :=
  match g with
  | LfsrLive state taps =>
      match lfsr_body state taps h with
      | (Ok v, h') => (Ok v, g, h')
      | (Raise e, h') => (Raise e, LfsrDone, h')
      | (Stuck, h') => (Stuck, LfsrDone, h')
      end
  | LfsrDone => (Raise StopIteration, LfsrDone, h)
  end.

(** ** [ca_code_gen] *)

(** The entries of the [init_codes] display, in source order. *)
Definition init_code_rows : list (Z * list Z) :=
  [ (1,  [1; 1; 1; 1; 1; 0; 1; 1; 0; 0]);
    (2,  [1; 1; 1; 1; 0; 1; 1; 0; 0; 0]);
    (3,  [1; 1; 1; 0; 1; 1; 0; 0; 0; 0]);
    (4,  [1; 1; 0; 1; 1; 0; 0; 0; 0; 0]);
    (5,  [0; 0; 1; 0; 0; 1; 0; 1; 1; 0]);
    (6,  [0; 1; 0; 0; 1; 0; 1; 1; 0; 0]);
    (7,  [0; 1; 1; 0; 0; 1; 0; 1; 1; 0]);
    (8,  [1; 1; 0; 0; 1; 0; 1; 1; 0; 0]);
    (9,  [1; 0; 0; 1; 0; 1; 1; 0; 0; 0]);
    (10, [1; 1; 0; 1; 1; 1; 0; 1; 0; 0]);
    (11, [1; 0; 1; 1; 1; 0; 1; 0; 0; 0]);
    (12, [1; 1; 1; 0; 1; 0; 0; 0; 0; 0]);
    (13, [1; 1; 0; 1; 0; 0; 0; 0; 0; 0]);
    (14, [1; 0; 1; 0; 0; 0; 0; 0; 0; 0]);
    (15, [0; 1; 0; 0; 0; 0; 0; 0; 0; 0]);
    (16, [1; 0; 0; 0; 0; 0; 0; 0; 0; 0]);
    (17, [1; 0; 0; 0; 1; 0; 0; 1; 1; 0]);
    (18, [0; 0; 0; 1; 0; 0; 1; 1; 0; 0]);
    (19, [0; 0; 1; 0; 0; 1; 1; 0; 0; 0]);
    (20, [0; 1; 0; 0; 1; 1; 0; 0; 0; 0]);
    (21, [1; 0; 0; 1; 1; 0; 0; 0; 0; 0]);
    (22, [0; 0; 1; 1; 0; 0; 0; 0; 0; 0]);
    (23, [0; 0; 1; 1; 0; 0; 1; 1; 1; 0]);
    (24, [1; 0; 0; 1; 1; 1; 0; 0; 0; 0]);
    (25, [0; 0; 1; 1; 1; 0; 0; 0; 0; 0]);
    (26, [0; 1; 1; 1; 0; 0; 0; 0; 0; 0]);
    (27, [1; 1; 1; 0; 0; 0; 0; 0; 0; 0]);
    (28, [1; 1; 0; 0; 0; 0; 0; 0; 0; 0]);
    (29, [0; 0; 0; 1; 0; 1; 0; 1; 1; 0]);
    (30, [0; 0; 1; 0; 1; 0; 1; 1; 0; 0]);
    (31, [0; 1; 0; 1; 0; 1; 1; 0; 0; 0]);
    (32, [1; 0; 1; 0; 1; 1; 0; 0; 0; 0]) ].

(** Evaluating a dict display whose values are list displays: each value
    becomes a new list object, entered under its key; a later entry with
    the same key would replace an earlier one. *)
Fixpoint dict_display (rows : list (Z * list Z)) (d : gmap Z loc) : M (gmap Z loc) :=
  match rows with
  | [] => ret d
  | (k, v) :: rows' => l <- alloc v ;; dict_display rows' (<[k := l]> d)
  end.

(** [d[k]] *)
Definition dict_get {A} (d : gmap Z A) (k : Z) : M A :=
  match d !! k with
  | Some a => ret a
  | None => raise (KeyError k)
  end.

Definition lfsr1_taps : list Z := [0; 0; 1; 0; 0; 0; 0; 0; 0; 1].
Definition lfsr2_taps : list Z := [0; 1; 1; 0; 0; 1; 0; 1; 1; 1].

(** [{0: -1, 1: 1}] *)
Definition chip_table : gmap Z Z := <[1 := 1]> (<[0 := -1]> ∅).

(** The body of [ca_code_gen] before [while True].  [[1] * 10] builds
    the one-element list [[1]] and then the list of ten 1s, a second
    object.  The arguments of a call are evaluated left to right, so
    [init_codes[sv]] is looked up before the taps of LFSR-2 are built. *)
Definition ca_setup (sv : Z) : M (lfsr_gen * lfsr_gen) :=
  init_codes <- dict_display init_code_rows ∅ ;;
  one <- alloc [1] ;;
  seed1 <- alloc (replicate 10 1) ;;
  taps1 <- alloc lfsr1_taps ;;
  lfsr1 <- lfsr seed1 taps1 ;;
  seed2 <- dict_get init_codes sv ;;
  taps2 <- alloc lfsr2_taps ;;
  lfsr2 <- lfsr seed2 taps2 ;;
  ret (lfsr1, lfsr2).

(** A generator object made by [ca_code_gen(sv)]: not started (the call
    itself runs nothing of the body), suspended at the [yield], or left
    by an exception. *)
Inductive ca_gen :=
| CaCreated (sv : Z)
| CaRunning (lfsr1 lfsr2 : lfsr_gen)
| CaDone.

Definition ca_code_gen (sv : Z) : M ca_gen :=
  ret (CaCreated sv).

(** One turn of [while True]: [next(lfsr1)] is evaluated before
    [next(lfsr2)]. *)
Definition ca_body (lfsr1 lfsr2 : lfsr_gen) (h : heap) : outcome Z * ca_gen * heap :=
  match next_lfsr lfsr1 h with
  | (Ok b1, lfsr1', h1) =>
      match next_lfsr lfsr2 h1 with
      | (Ok b2, lfsr2', h2) =>
          let asymmetric := Z.lxor b1 b2 in
          match chip_table !! asymmetric with
          | Some chip => (Ok chip, CaRunning lfsr1' lfsr2', h2)
          | None => (Raise (KeyError asymmetric), CaDone, h2)
          end
      | (Raise e, _, h2) => (Raise e, CaDone, h2)
      | (Stuck, _, h2) => (Stuck, CaDone, h2)
      end
  | (Raise e, _, h1) => (Raise e, CaDone, h1)
  | (Stuck, _, h1) => (Stuck, CaDone, h1)
  end.

(** [next(g)] for a generator [g] of [ca_code_gen]. *)
Definition next_ca (g : ca_gen) (h : heap) : outcome Z * ca_gen * heap :=
  match g with
  | CaCreated sv =>
      match ca_setup sv h with
      | (Ok (lfsr1, lfsr2), h0) => ca_body lfsr1 lfsr2 h0
      | (Raise e, h0) => (Raise e, CaDone, h0)
      | (Stuck, h0) => (Stuck, CaDone, h0)
      end
  | CaRunning lfsr1 lfsr2 => ca_body lfsr1 lfsr2 h
  | CaDone => (Raise StopIteration, CaDone, h)
  end.

(** ** The caller: [[next(g) for _ in range(n)]] *)

Fixpoint pulls {G} (next : G -> heap -> outcome Z * G * heap)
    (n : nat) (g : G) (h : heap) : outcome (list Z) * G * heap :=
  match n with
  | O => (Ok [], g, h)
  | S n' =>
      match next g h with
      | (Ok v, g', h') =>
          match pulls next n' g' h' with
          | (Ok vs, g'', h'') => (Ok (v :: vs), g'', h'')
          | r => r
          end
      | (Raise e, g', h') => (Raise e, g', h')
      | (Stuck, g', h') => (Stuck, g', h')
      end
  end.

(** ** Register values: what one step does to the list it works on *)

Definition bit (x : Z) : Prop := x = 0 \/ x = 1.

(** The value [state.pop()] yields after [state.insert(0, feedback)]. *)
Definition step_out (s t : list Z) : Z := List.last s (feedback s t).

(** The list left in the register by one step. *)
Definition step_state (s t : list Z) : list Z := removelast (feedback s t :: s).

(** The first [n] values of a register that starts at [s] and is touched
    by nobody else, and the register after them. *)
Fixpoint run_out (t : list Z) (n : nat) (s : list Z) : list Z :=
  match n with
  | O => []
  | S n' => step_out s t :: run_out t n' (step_state s t)
  end.

Fixpoint run_state (t : list Z) (n : nat) (s : list Z) : list Z :=
  match n with
  | O => s
  | S n' => run_state t n' (step_state s t)
  end.

(** [{0: -1, 1: 1}[a]] for a bit [a]. *)
Definition chip_of (a : Z) : Z := if a =? 0 then -1 else 1.

(** The chips of two registers [s1] (taps of LFSR-1) and [s2] (taps of
    LFSR-2) stepped together. *)
Fixpoint gold_chips (n : nat) (s1 s2 : list Z) : list Z :=
  match n with
  | O => []
  | S n' =>
      chip_of (Z.lxor (step_out s1 lfsr1_taps) (step_out s2 lfsr2_taps))
        :: gold_chips n' (step_state s1 lfsr1_taps) (step_state s2 lfsr2_taps)
  end.

(** The seed table as a map from SV id to row value. *)
Definition init_codes : gmap Z (list Z) := list_to_map init_code_rows.

(** The locations a dict display hands out when the store holds [base]
    objects. *)
Fixpoint dict_locs (base : nat) (rows : list (Z * list Z)) (d : gmap Z loc) : gmap Z loc :=
  match rows with
  | [] => d
  | (k, _) :: rows' => dict_locs (S base) rows' (<[k := base]> d)
  end.

(** ** The caller of the module's last lines:
<<
    gen = ca_code_gen(sv_no)
    chips = []
    for i in range(10):
        chips.append(next(gen))
>>
    for any number of chips, and the same for a generator of [lfsr]. *)

Definition collect {G} (next : G -> heap -> outcome Z * G * heap)
    (n : nat) (g : G) : M (list Z) :=
  fun h => ((pulls next n g h).1.1, (pulls next n g h).2).

Definition first_chips (sv : Z) (n : nat) : M (list Z) :=
  gen <- ca_code_gen sv ;; collect next_ca n gen.

Definition first_bits (seed taps : nat) (n : nat) : M (list Z) :=
  gen <- lfsr seed taps ;; collect next_lfsr n gen.

(** ** The suspended generator *)

(** The generator is suspended at its [yield], its registers hold [s1]
    and [s2], the tap masks are intact, and the four list objects are
    different ones. *)
Definition ca_running (h : heap) (g : ca_gen) (s1 s2 : list Z) : Prop :=
  exists a1 t1 a2 t2 : nat,
    g = CaRunning (LfsrLive a1 t1) (LfsrLive a2 t2)
    /\ h !! a1 = Some s1 /\ h !! t1 = Some lfsr1_taps
    /\ h !! a2 = Some s2 /\ h !! t2 = Some lfsr2_taps
    /\ a1 <> t1 /\ a1 <> a2 /\ a1 <> t2 /\ a2 <> t1 /\ a2 <> t2.

(** ** The step as section 4.1 of the specification words it

    "feedback = XOR over all positions i where tap[i] == 1 of state[i]",
    here over the positions below [n]. *)
Fixpoint xor_positions (state taps : list Z) (n : nat) : Z :=
  match n with
  | O => 0
  | S i =>
      if decide (taps !!! i = 1)
      then Z.lxor (xor_positions state taps i) (state !!! i)
      else xor_positions state taps i
  end.

(** ** The tap masks as section 4.2 of the specification words them: a
    mask of ten values with 1 at the listed zero-indexed positions. *)
Definition taps_at (positions : list nat) : list Z :=
  (fun i : nat => if decide (i ∈ positions) then 1 else 0) <$> seq 0 10.

(** ** Comparing a list with its shifts

    [differ_within n l1 l2]: some position below [n] holds different
    elements in [l1] and [l2]. *)
Fixpoint differ_within (n : nat) (l1 l2 : list Z) : bool :=
  match n, l1, l2 with
  | S n', x :: l1', y :: l2' => negb (x =? y) || differ_within n' l1' l2'
  | _, _, _ => false
  end.

(** [no_shift_matches n c l tl]: each of [tl] shifted by 1, ..., [c]
    differs from [l] at a position below [n]. *)
Fixpoint no_shift_matches (n c : nat) (l tl : list Z) : bool :=
  match c with
  | O => true
  | S c' =>
      match tl with
      | [] => false
      | _ :: tl' => differ_within n l tl' && no_shift_matches n c' l tl'
      end
  end.

(** ** Generators whose registers were created after the first [k]
    objects of the store *)
Definition lfsr_above (k : nat) (g : lfsr_gen) : Prop :=
  match g with
  | LfsrLive state _ => (k <= state)%nat
  | LfsrDone => True
  end.

Definition ca_above (k : nat) (g : ca_gen) : Prop :=
  match g with
  | CaCreated _ => False
  | CaRunning lfsr1 lfsr2 => lfsr_above k lfsr1 /\ lfsr_above k lfsr2
  | CaDone => True
  end.

(** ** The demonstration under [if __name__ == "__main__"] *)

(** [str(l)] for a list of ints. *)
Definition str_list (l : list Z) : string :=
  "[" +:+ String.concat ", " (pretty <$> l) +:+ "]".

(** The format specification [>2] on the text [s]: right-aligned in a
    field of [width] characters, filled with spaces, never cut. *)
Definition rjust (width : nat) (s : string) : string :=
  String.concat "" (replicate (width - String.length s) " ") +:+ s.

(** ["SV PRN: {:>2}, first 10 chips: {}".format(sv_no, chips)] *)
Definition format_line (sv_no : Z) (chips : list Z) : string :=
  "SV PRN: " +:+ rjust 2 (pretty sv_no) +:+ ", first 10 chips: "
    +:+ str_list chips.

(** The loop over [range(1, 33)], with the lines printed so far as part
    of the state.  The list [chips] is reached by no generator and is
    kept as a value. *)
Fixpoint main_loop (svs : list Z) (h : heap) (out : list string)
    : outcome unit * heap * list string :=
  match svs with
  | [] => (Ok tt, h, out)
  | sv_no :: svs' =>
      match first_chips sv_no 10 h with
      | (Ok chips, h') => main_loop svs' h' (out ++ [format_line sv_no chips])
      | (Raise e, h') => (Raise e, h', out)
      | (Stuck, h') => (Stuck, h', out)
      end
  end.

Definition main (h : heap) : outcome unit * heap * list string :=
  main_loop (Z.of_nat <$> seq 1 32) h [].

(** * Basic facts *)

(** The demonstration at the end of the module prints these chips for
    SV 1. *)
Example sv1_first_10 :
  (pulls next_ca 10 (CaCreated 1) []).1.1 = Ok [1; 1; -1; -1; 1; -1; -1; -1; -1; -1].
Proof. vm_compute. reflexivity. Qed.


Section Lists.

Lemma last_default_cons (x y : Z) (s : list Z) :
  List.last (y :: s) x = List.last s y.
Proof.
  revert x y. induction s as [|z s IH]; intros x y; [done|].
  change (List.last (y :: z :: s) x) with (List.last (z :: s) x).
  by rewrite !IH.
Qed.

Lemma last_cons_default (x : Z) (s : list Z) :
  last (x :: s) = Some (List.last s x).
Proof.
  revert x. induction s as [|y s IH]; intros x; [done|].
  by rewrite last_cons_cons, IH, last_default_cons.
Qed.

Lemma pop_cons (x : Z) (s : list Z) :
  pop (x :: s) = Some (List.last s x, removelast (x :: s)).
Proof. unfold pop. by rewrite last_cons_default. Qed.

Lemma length_removelast_cons (x : Z) (s : list Z) :
  length (removelast (x :: s)) = length s.
Proof.
  revert x. induction s as [|y s IH]; intros x; [done|].
  change (removelast (x :: y :: s)) with (x :: removelast (y :: s)).
  by rewrite !length_cons, IH.
Qed.

Lemma length_step_state (s t : list Z) : length (step_state s t) = length s.
Proof. apply length_removelast_cons. Qed.

Lemma Forall_removelast (P : Z -> Prop) (l : list Z) :
  Forall P l -> Forall P (removelast l).
Proof.
  induction 1 as [|x l Hx Hl IH]; [constructor|].
  destruct l; [constructor|]. constructor; [done|]. exact IH.
Qed.

Lemma Forall_last_default (P : Z -> Prop) (l : list Z) (d : Z) :
  P d -> Forall P l -> P (List.last l d).
Proof.
  intros Hd. induction 1 as [|x l Hx Hl IH]; [done|].
  destruct l; [done|]. exact IH.
Qed.

End Lists.

Section Feedback.

Lemma lxor_bit (a b : Z) : bit a -> bit b -> bit (Z.lxor a b).
Proof. intros [->| ->] [->| ->]; vm_compute; auto. Qed.

Lemma foldl_feedback_bit (l : list (Z * Z)) (a : Z) :
  bit a -> Forall (fun bt => bit (fst bt)) l ->
  bit (foldl (fun fb bt => if snd bt =? 1 then Z.lxor fb (fst bt) else fb) a l).
Proof.
  intros Ha Hl. revert a Ha.
  induction Hl as [|[b t] l Hb Hl IH]; intros a Ha; [done|].
  simpl. apply IH. destruct (t =? 1); [|done]. by apply lxor_bit.
Qed.

Lemma Forall_zip_fst (P : Z -> Prop) (s t : list Z) :
  Forall P s -> Forall (fun bt : Z * Z => P (fst bt)) (zip s t).
Proof.
  intros Hs. revert t. induction Hs as [|x s Hx Hs IH]; intros [|y t]; simpl;
    constructor; auto.
Qed.

Lemma feedback_bit (s t : list Z) : Forall bit s -> bit (feedback s t).
Proof.
  intros Hs. apply foldl_feedback_bit; [by left|]. by apply Forall_zip_fst.
Qed.

Lemma step_out_bit (s t : list Z) : Forall bit s -> bit (step_out s t).
Proof.
  intros Hs. unfold step_out.
  apply (Forall_last_default bit); [by apply feedback_bit|done].
Qed.

Lemma step_state_bit (s t : list Z) : Forall bit s -> Forall bit (step_state s t).
Proof.
  intros Hs. unfold step_state. apply Forall_removelast.
  constructor; [by apply feedback_bit|done].
Qed.

Lemma chip_table_bit (a : Z) : bit a -> chip_table !! a = Some (chip_of a).
Proof. by intros [->| ->]. Qed.

Lemma chip_table_other (a : Z) : a <> 0 -> a <> 1 -> chip_table !! a = None.
Proof.
  intros H0 H1. unfold chip_table.
  rewrite lookup_insert_ne by done. rewrite lookup_insert_ne by done.
  apply lookup_empty.
Qed.

End Feedback.

(** * Equations of the store operations *)

Section Monad.

Context {B : Type}.

Lemma bind_ret {A} (a : A) (k : A -> M B) (h : heap) :
  bind (ret a) k h = k a h.
Proof. done. Qed.

Lemma bind_load (l : loc) (v : list Z) (k : list Z -> M B) (h : heap) :
  h !! l = Some v -> bind (load l) k h = k v h.
Proof. intros Hl. unfold bind, load. by rewrite Hl. Qed.

Lemma bind_store (l : loc) (v : list Z) (k : unit -> M B) (h : heap) :
  bind (store l v) k h = k tt (<[l := v]> h).
Proof. done. Qed.

Lemma bind_alloc (v : list Z) (k : loc -> M B) (h : heap) :
  bind (alloc v) k h = k (length h) (h ++ [v]).
Proof. done. Qed.

Lemma bind_bind {A A'} (m : M A) (f : A -> M A') (k : A' -> M B) (h : heap) :
  bind (bind m f) k h = bind m (fun a => bind (f a) k) h.
Proof. unfold bind. by destruct (m h) as [[a|e|] h']. Qed.

End Monad.

(** * One step of [lfsr] on the store *)

Section Step.

Variables (h : heap) (sl tl : loc) (s t : list Z).
Hypothesis Hstate : h !! sl = Some s.
Hypothesis Htaps : h !! tl = Some t.

Lemma lfsr_body_spec :
  lfsr_body sl tl h = (Ok (step_out s t), <[sl := step_state s t]> h).
Proof using Hstate Htaps.
  pose proof (lookup_lt_Some _ _ _ Hstate) as Hlt.
  unfold lfsr_body, list_insert_front, list_pop.
  rewrite (bind_load _ _ _ _ Hstate), (bind_load _ _ _ _ Htaps).
  rewrite bind_bind, (bind_load _ _ _ _ Hstate), bind_store.
  rewrite (bind_load sl (feedback s t :: s))
    by (by apply list_lookup_insert_eq).
  rewrite pop_cons, bind_store. by rewrite list_insert_insert_eq.
Qed.

Lemma next_lfsr_spec :
  next_lfsr (LfsrLive sl tl) h
  = (Ok (step_out s t), LfsrLive sl tl, <[sl := step_state s t]> h).
Proof using Hstate Htaps. unfold next_lfsr. by rewrite lfsr_body_spec. Qed.

Lemma step_store_state : <[sl := step_state s t]> h !! sl = Some (step_state s t).
Proof using Hstate.
  apply list_lookup_insert_eq. by apply lookup_lt_Some with s.
Qed.

Lemma step_store_frame (l : loc) :
  l <> sl -> <[sl := step_state s t]> h !! l = h !! l.
Proof. intros Hne. by apply list_lookup_insert_ne. Qed.

End Step.

(** * Any number of steps, for a property of the register that one step
      keeps *)

Section Invariant.

Variable I : list Z -> Prop.
Variable O : Z -> Prop.
Hypothesis I_step : forall s t, I s -> I (step_state s t).
Hypothesis O_step : forall s t, I s -> O (step_out s t).

Lemma pulls_lfsr_invariant (n : nat) :
  forall (h : heap) (sl tl : loc) (s : list Z),
    h !! sl = Some s -> I s -> is_Some (h !! tl) ->
    exists vs h' s',
      pulls next_lfsr n (LfsrLive sl tl) h = (Ok vs, LfsrLive sl tl, h')
      /\ length vs = n /\ Forall O vs
      /\ h' !! sl = Some s' /\ I s' /\ is_Some (h' !! tl)
      /\ forall l, l <> sl -> h' !! l = h !! l.
Proof using I_step O_step.
  induction n as [|n IH]; intros h sl tl s Hs HI [t Ht].
  - exists [], h, s. simpl. eauto 10.
  - set (h1 := <[sl := step_state s t]> h).
    assert (h1 !! sl = Some (step_state s t)) as Hs1
      by (by apply step_store_state).
    assert (is_Some (h1 !! tl)) as Ht1.
    { destruct (decide (tl = sl)) as [->|Hne]; [by eexists|].
      unfold h1. rewrite step_store_frame by done. by eexists. }
    destruct (IH h1 sl tl _ Hs1 (I_step s t HI) Ht1)
      as (vs & h' & s' & Hrun & Hlen & Hvs & Hs' & HI' & Ht' & Hframe).
    exists (step_out s t :: vs), h', s'.
    cbn [pulls]. rewrite (next_lfsr_spec h sl tl s t Hs Ht).
    fold h1. rewrite Hrun. repeat split; try done.
    + simpl. by rewrite Hlen.
    + constructor; [by apply O_step|done].
    + intros l Hl. rewrite Hframe by done. unfold h1.
      by rewrite step_store_frame.
Qed.

End Invariant.

(** * A register nobody else touches, with taps in another object *)

Lemma pulls_lfsr_spec (t : list Z) (sl tl : loc) (n : nat) :
  forall (h : heap) (s : list Z),
    sl <> tl -> h !! sl = Some s -> h !! tl = Some t ->
    pulls next_lfsr n (LfsrLive sl tl) h
    = (Ok (run_out t n s), LfsrLive sl tl, <[sl := run_state t n s]> h).
Proof.
  induction n as [|n IH]; intros h s Hne Hs Ht.
  - simpl. by rewrite list_insert_id.
  - cbn [pulls run_out run_state].
    rewrite (next_lfsr_spec h sl tl s t Hs Ht).
    rewrite (IH _ (step_state s t) Hne).
    + by rewrite list_insert_insert_eq.
    + by apply step_store_state.
    + by rewrite step_store_frame.
Qed.

Lemma length_run_out (t : list Z) (n : nat) :
  forall s, length (run_out t n s) = n.
Proof. induction n as [|n IH]; intros s; simpl; [done|by rewrite IH]. Qed.

(** * The seed table and the dict display *)

Section Display.

Lemma dict_display_spec (rows : list (Z * list Z)) :
  forall (d : gmap Z nat) (h : heap),
    dict_display rows d h = (Ok (dict_locs (length h) rows d), h ++ rows.*2).
Proof.
  induction rows as [|[k v] rows IH]; intros d h.
  - simpl. unfold ret. by rewrite app_nil_r.
  - cbn [dict_display dict_locs]. rewrite bind_alloc, IH.
    rewrite length_app, Nat.add_1_r. cbn [fmap list_fmap snd].
    by rewrite <- app_assoc.
Qed.

Lemma dict_locs_notin (rows : list (Z * list Z)) :
  forall (base : nat) (d : gmap Z nat) (k : Z),
    k ∉ rows.*1 -> dict_locs base rows d !! k = d !! k.
Proof.
  induction rows as [|[k' v] rows IH]; intros base d k Hk; [done|].
  cbn [dict_locs]. rewrite fmap_cons, not_elem_of_cons in Hk.
  destruct Hk as [Hne Hk]. rewrite IH by done.
  by rewrite lookup_insert_ne.
Qed.

Lemma dict_locs_lookup (rows : list (Z * list Z)) :
  forall (base : nat) (d : gmap Z nat) (i : nat) (k : Z) (v : list Z),
    NoDup rows.*1 -> rows !! i = Some (k, v) ->
    dict_locs base rows d !! k = Some (base + i)%nat.
Proof.
  induction rows as [|[k' v'] rows IH]; intros base d i k v Hnd Hi; [done|].
  rewrite fmap_cons, NoDup_cons in Hnd. destruct Hnd as [Hk' Hnd].
  cbn [dict_locs]. destruct i as [|i].
  - injection Hi as -> ->. rewrite dict_locs_notin by done.
    by rewrite lookup_insert_eq, Nat.add_0_r.
  - rewrite (IH _ _ i k v) by done. f_equal. lia.
Qed.

Lemma init_code_keys : init_code_rows.*1 = Z.of_nat <$> seq 1 32.
Proof. reflexivity. Qed.

Lemma init_code_keys_NoDup : NoDup init_code_rows.*1.
Proof.
  rewrite init_code_keys. apply NoDup_fmap_2; [apply _|apply NoDup_seq].
Qed.

Lemma init_code_key_range (sv : Z) : sv ∈ init_code_rows.*1 <-> 1 <= sv <= 32.
Proof.
  rewrite init_code_keys, list_elem_of_fmap. split.
  - intros (n & -> & Hn). apply elem_of_seq in Hn. lia.
  - intros Hsv. exists (Z.to_nat sv). split; [lia|]. apply elem_of_seq. lia.
Qed.

Lemma init_codes_lookup (sv : Z) (row : list Z) :
  init_codes !! sv = Some row <-> (sv, row) ∈ init_code_rows.
Proof.
  unfold init_codes. symmetry. apply elem_of_list_to_map, init_code_keys_NoDup.
Qed.

Lemma init_codes_in_range (sv : Z) :
  1 <= sv <= 32 -> exists row, init_codes !! sv = Some row.
Proof.
  intros Hsv. apply init_code_key_range in Hsv.
  apply list_elem_of_fmap in Hsv as ([k row] & -> & Hin).
  exists row. by apply init_codes_lookup.
Qed.

Lemma init_codes_out_of_range (sv : Z) :
  ~ (1 <= sv <= 32) -> init_codes !! sv = None.
Proof.
  intros Hsv. apply not_elem_of_list_to_map_1.
  by rewrite init_code_key_range.
Qed.

End Display.

(** * Setting up the two registers *)

Section Setup.

Variables (h : heap) (sv : Z).

Lemma ca_setup_unfold :
  ca_setup sv h =
  let h1 := h ++ init_code_rows.*2 in
  let hu := h1 ++ [[1]] in
  let h2 := hu ++ [replicate 10 1] in
  let h3 := h2 ++ [lfsr1_taps] in
  match dict_locs (length h) init_code_rows ∅ !! sv with
  | Some a2 =>
      (Ok (LfsrLive (length hu) (length h2), LfsrLive a2 (length h3)),
       h3 ++ [lfsr2_taps])
  | None => (Raise (KeyError sv), h3)
  end.
Proof.
  unfold ca_setup. unfold bind at 1. rewrite dict_display_spec.
  rewrite !bind_alloc. unfold lfsr at 1. rewrite bind_ret.
  unfold bind at 1, dict_get.
  destruct (dict_locs (length h) init_code_rows ∅ !! sv) as [a2|]; [|done].
  unfold ret at 1. by rewrite bind_alloc.
Qed.

Lemma ca_setup_ok (row : list Z) :
  init_codes !! sv = Some row ->
  exists g1 g2 h0,
    ca_setup sv h = (Ok (g1, g2), h0)
    /\ ca_running h0 (CaRunning g1 g2) (replicate 10 1) row.
Proof.
  intros Hrow. apply init_codes_lookup, list_elem_of_lookup in Hrow.
  destruct Hrow as [i Hi].
  pose proof (lookup_lt_Some _ _ _ Hi) as Hlt.
  rewrite ca_setup_unfold.
  rewrite (dict_locs_lookup _ _ _ i sv row init_code_keys_NoDup Hi).
  set (h1 := h ++ init_code_rows.*2).
  set (hu := h1 ++ [[1]]).
  set (h2 := hu ++ [replicate 10 1]).
  set (h3 := h2 ++ [lfsr1_taps]).
  assert (length h1 = (length h + length init_code_rows)%nat) as Hl1
    by (unfold h1; by rewrite length_app, length_fmap).
  assert (length hu = S (length h1)) as Hlu
    by (unfold hu; rewrite length_app; simpl; lia).
  assert (length h2 = S (length hu)) as Hl2
    by (unfold h2; rewrite length_app; simpl; lia).
  assert (length h3 = S (length h2)) as Hl3
    by (unfold h3; rewrite length_app; simpl; lia).
  assert (h1 !! (length h + i)%nat = Some row) as Hrow1.
  { unfold h1. rewrite lookup_app_r by lia.
    replace (length h + i - length h)%nat with i by lia.
    by rewrite list_lookup_fmap, Hi. }
  eexists _, _, _. split; [reflexivity|].
  exists (length hu), (length h2), (length h + i)%nat, (length h3).
  repeat split; try lia.
  - do 2 apply lookup_app_l_Some. by apply list_lookup_middle.
  - apply lookup_app_l_Some. by apply list_lookup_middle.
  - by do 4 apply lookup_app_l_Some.
  - by apply list_lookup_middle.
Qed.

Lemma ca_setup_KeyError :
  ~ (1 <= sv <= 32) ->
  ca_setup sv h
  = (Raise (KeyError sv),
     h ++ init_code_rows.*2 ++ [[1]; replicate 10 1; lfsr1_taps]).
Proof.
  intros Hsv. rewrite ca_setup_unfold.
  rewrite dict_locs_notin by (by rewrite init_code_key_range).
  rewrite lookup_empty. cbn zeta. by rewrite <- !app_assoc.
Qed.

End Setup.

(** * The running generator *)

Section Running.

Lemma next_ca_running (h : heap) (g : ca_gen) (s1 s2 : list Z) :
  ca_running h g s1 s2 -> Forall bit s1 -> Forall bit s2 ->
  exists h',
    next_ca g h
    = (Ok (chip_of (Z.lxor (step_out s1 lfsr1_taps) (step_out s2 lfsr2_taps))),
       g, h')
    /\ ca_running h' g (step_state s1 lfsr1_taps) (step_state s2 lfsr2_taps).
Proof.
  intros (a1 & t1 & a2 & t2 & -> & Ha1 & Ht1 & Ha2 & Ht2 & N1 & N2 & N3 & N4 & N5)
    Hb1 Hb2.
  set (h1 := <[a1 := step_state s1 lfsr1_taps]> h).
  set (h2 := <[a2 := step_state s2 lfsr2_taps]> h1).
  assert (h1 !! a2 = Some s2) as Ha2'
    by (unfold h1; by rewrite list_lookup_insert_ne).
  assert (h1 !! t2 = Some lfsr2_taps) as Ht2'
    by (unfold h1; by rewrite list_lookup_insert_ne).
  exists h2. split.
  - cbn [next_ca]. unfold ca_body.
    rewrite (next_lfsr_spec h a1 t1 s1 lfsr1_taps Ha1 Ht1). fold h1.
    rewrite (next_lfsr_spec h1 a2 t2 s2 lfsr2_taps Ha2' Ht2'). fold h2.
    cbn zeta. rewrite chip_table_bit; [done|].
    apply lxor_bit; by apply step_out_bit.
  - exists a1, t1, a2, t2. repeat split; try done; unfold h2.
    + rewrite list_lookup_insert_ne by done. by apply step_store_state.
    + rewrite list_lookup_insert_ne by done. unfold h1.
      by rewrite list_lookup_insert_ne.
    + by apply step_store_state.
    + by rewrite list_lookup_insert_ne.
Qed.

Lemma pulls_ca_running (n : nat) :
  forall (h : heap) (g : ca_gen) (s1 s2 : list Z),
    ca_running h g s1 s2 -> Forall bit s1 -> Forall bit s2 ->
    exists h',
      pulls next_ca n g h = (Ok (gold_chips n s1 s2), g, h')
      /\ ca_running h' g (run_state lfsr1_taps n s1) (run_state lfsr2_taps n s2).
Proof.
  induction n as [|n IH]; intros h g s1 s2 Hrun Hb1 Hb2.
  - exists h. by split.
  - destruct (next_ca_running h g s1 s2 Hrun Hb1 Hb2) as (h1 & Hnext & Hrun1).
    destruct (IH h1 g _ _ Hrun1 (step_state_bit _ _ Hb1) (step_state_bit _ _ Hb2))
      as (h' & Hpulls & Hrun').
    exists h'. split; [|done].
    cbn [pulls gold_chips]. by rewrite Hnext, Hpulls.
Qed.

Lemma init_code_rows_bits :
  Forall (fun r : Z * list Z => Forall bit r.2) init_code_rows.
Proof.
  repeat (apply Forall_cons; split;
          [repeat (apply Forall_cons; split; [first [by left|by right]|]);
           apply Forall_nil_2|]).
  apply Forall_nil_2.
Qed.

Lemma init_codes_bits (sv : Z) (row : list Z) :
  init_codes !! sv = Some row -> Forall bit row.
Proof.
  intros Hrow. apply init_codes_lookup in Hrow.
  pose proof init_code_rows_bits as Hall.
  rewrite Forall_forall in Hall. exact (Hall _ Hrow).
Qed.

Lemma ones_bits : Forall bit (replicate 10 1).
Proof. apply Forall_replicate. by right. Qed.

Lemma pulls_ca_created (h : heap) (sv : Z) (row : list Z) (n : nat) :
  init_codes !! sv = Some row ->
  (pulls next_ca n (CaCreated sv) h).1.1
  = Ok (gold_chips n (replicate 10 1) row).
Proof.
  intros Hrow. destruct n as [|n]; [done|].
  destruct (ca_setup_ok h sv row Hrow) as (g1 & g2 & h0 & Hsetup & Hrun).
  destruct (pulls_ca_running (S n) h0 _ _ _ Hrun ones_bits
              (init_codes_bits sv row Hrow)) as (h' & Hpulls & _).
  cbn [pulls next_ca] in *. rewrite Hsetup. by rewrite Hpulls.
Qed.

End Running.

Lemma first_chips_gold (h : heap) (sv : Z) (row : list Z) (n : nat) :
  init_codes !! sv = Some row ->
  (first_chips sv n h).1 = Ok (gold_chips n (replicate 10 1) row).
Proof.
  intros Hrow. unfold first_chips, ca_code_gen. rewrite bind_ret.
  unfold collect. cbn [fst]. by apply pulls_ca_created.
Qed.

Lemma first_bits_run (h : heap) (sl tl : nat) (s t : list Z) (n : nat) :
  sl <> tl -> h !! sl = Some s -> h !! tl = Some t ->
  first_bits sl tl n h = (Ok (run_out t n s), <[sl := run_state t n s]> h).
Proof.
  intros Hne Hs Ht. unfold first_bits, lfsr. rewrite bind_ret.
  unfold collect. by rewrite (pulls_lfsr_spec t sl tl n h s).
Qed.

(** * The period of the two registers *)

Section Period.

Lemma length_gold_chips (n : nat) :
  forall s1 s2, length (gold_chips n s1 s2) = n.
Proof. induction n as [|n IH]; intros s1 s2; simpl; [done|by rewrite IH]. Qed.

Lemma gold_chips_add (n m : nat) :
  forall s1 s2,
    gold_chips (n + m) s1 s2
    = gold_chips n s1 s2
      ++ gold_chips m (run_state lfsr1_taps n s1) (run_state lfsr2_taps n s2).
Proof.
  induction n as [|n IH]; intros s1 s2; [done|].
  cbn [Nat.add gold_chips run_state app]. by rewrite IH.
Qed.

(** LFSR-1 is back at ten 1s after 1023 steps. *)
Lemma lfsr1_period :
  run_state lfsr1_taps 1023 (replicate 10 1) = replicate 10 1.
Proof. vm_compute. reflexivity. Qed.

(** LFSR-2 is back at its seed after 1023 steps, for each row of the
    table. *)
Lemma lfsr2_period :
  Forall (fun r : Z * list Z => run_state lfsr2_taps 1023 r.2 = r.2)
         init_code_rows.
Proof.
  repeat (apply Forall_cons; split; [vm_compute; reflexivity|]).
  apply Forall_nil_2.
Qed.

Lemma gold_chips_period (sv : Z) (row : list Z) (n : nat) :
  init_codes !! sv = Some row ->
  gold_chips (1023 + n) (replicate 10 1) row
  = gold_chips 1023 (replicate 10 1) row ++ gold_chips n (replicate 10 1) row.
Proof.
  intros Hrow. rewrite gold_chips_add, lfsr1_period.
  apply init_codes_lookup in Hrow.
  pose proof lfsr2_period as Hall. rewrite Forall_forall in Hall.
  specialize (Hall _ Hrow). cbn [snd] in Hall. by rewrite Hall.
Qed.

End Period.

(** * The claims *)

(** C1. For every SV id 1..32 the chips of [ca_code_gen(sv)] have period
    1023: of the first 2046 chips pulled from a new generator, the first
    1023 are the next 1023, chip [i] being chip [i + 1023] for every [i]
    in 0..1022. *)
Theorem ca_code_gen_period_1023 (h : heap) (sv : Z) :
  1 <= sv <= 32 ->
  exists chips : list Z,
    (first_chips sv 2046 h).1 = Ok chips
    /\ length chips = 2046%nat
    /\ take 1023 chips = drop 1023 chips
    /\ forall i : nat, (i < 1023)%nat -> chips !! i = chips !! (i + 1023)%nat.
Proof.
  intros Hsv. destruct (init_codes_in_range sv Hsv) as [row Hrow].
  exists (gold_chips 2046 (replicate 10 1) row).
  split; [by apply first_chips_gold|].
  split; [by apply length_gold_chips|].
  change 2046%nat with (1023 + 1023)%nat.
  rewrite (gold_chips_period sv row 1023 Hrow).
  set (G := gold_chips 1023 (replicate 10 1) row).
  assert (length G = 1023%nat) as HG by apply length_gold_chips.
  split.
  - by rewrite take_app_length', drop_app_length'.
  - intros i Hi. rewrite lookup_app_l by lia.
    rewrite lookup_app_r by lia. f_equal. lia.
Qed.

Lemma ca_code_gen_period_1023_witness :
  1 <= 7 <= 32 /\
  exists chips : list Z,
    (first_chips 7 2046 []).1 = Ok chips
    /\ length chips = 2046%nat
    /\ take 1023 chips = drop 1023 chips
    /\ forall i : nat, (i < 1023)%nat -> chips !! i = chips !! (i + 1023)%nat.
Proof. split; [lia|]. apply (ca_code_gen_period_1023 [] 7). lia. Defined.

(** The loop of [lfsr] computes the XOR of the tapped positions. *)

Section Tapped.

Variables s t : list Z.

Let f (fb : Z) (bt : Z * Z) : Z :=
  if snd bt =? 1 then Z.lxor fb (fst bt) else fb.

Lemma foldl_take_xor_positions (n : nat) :
  (n <= length s)%nat -> (n <= length t)%nat ->
  foldl f 0 (take n (zip s t)) = xor_positions s t n.
Proof using Type.
  induction n as [|n IH]; intros Hs Ht; [done|].
  destruct (lookup_lt_is_Some_2 s n) as [b Hb]; [lia|].
  destruct (lookup_lt_is_Some_2 t n) as [a Ha]; [lia|].
  assert (zip s t !! n = Some (b, a)) as Hz
    by (by rewrite lookup_zip_with, Hb, Ha).
  rewrite (take_S_r _ _ _ Hz), foldl_app, IH by lia.
  cbn [foldl xor_positions]. unfold f. cbn [fst snd].
  rewrite (list_lookup_total_correct _ _ _ Hb).
  rewrite (list_lookup_total_correct _ _ _ Ha).
  destruct (Z.eqb_spec a 1) as [->|Hne]; by case_decide.
Qed.

Lemma feedback_xor_positions :
  length s = length t -> feedback s t = xor_positions s t (length t).
Proof using Type.
  intros Hlen. rewrite <- foldl_take_xor_positions by lia.
  unfold feedback. fold f. rewrite take_ge; [done|].
  rewrite length_zip_with. lia.
Qed.

End Tapped.

Lemma removelast_cons_nonempty (x : Z) (s : list Z) :
  s <> [] -> removelast (x :: s) = x :: removelast s.
Proof. by destruct s. Qed.

Lemma last_default_Some (s : list Z) (d x : Z) :
  last s = Some x -> List.last s d = x.
Proof.
  destruct s as [|y s]; [done|]. rewrite last_cons_default.
  intros [= <-]. by rewrite last_default_cons.
Qed.

(** C2. On a register of ten bits with a mask of ten bits, one step of
    [lfsr] yields the bit that was last in the register and puts in front
    the XOR of the register bits at the positions whose tap is 1 (the
    register is then again ten bits, so this holds at every step); and a
    register of ten 1s with the taps of LFSR-1 first yields 1, 1, 1. *)
Theorem lfsr_step_shift (h : heap) (sl tl : nat) (s t : list Z) :
  h !! sl = Some s -> h !! tl = Some t ->
  length s = 10%nat -> length t = 10%nat ->
  Forall bit s -> Forall bit t ->
  (exists (out : Z) (h' : heap),
      last s = Some out
      /\ next_lfsr (LfsrLive sl tl) h = (Ok out, LfsrLive sl tl, h')
      /\ h' !! sl = Some (xor_positions s t 10 :: removelast s)
      /\ bit (xor_positions s t 10)
      /\ length (xor_positions s t 10 :: removelast s) = 10%nat
      /\ Forall bit (xor_positions s t 10 :: removelast s))
  /\ (s = replicate 10 1 -> t = [0; 0; 1; 0; 0; 0; 0; 0; 0; 1] ->
      (first_bits sl tl 3 h).1 = Ok [1; 1; 1]).
Proof.
  intros Hs Ht Ls Lt Bs Bt. split.
  - assert (s <> []) as Hne by (intros ->; discriminate Ls).
    destruct (last s) as [out|] eqn:Hlast;
      [|by apply last_None in Hlast].
    assert (feedback s t = xor_positions s t 10) as Hfb
      by (rewrite <- Lt; apply feedback_xor_positions; lia).
    assert (step_state s t = xor_positions s t 10 :: removelast s) as Hst
      by (unfold step_state; by rewrite removelast_cons_nonempty, Hfb).
    exists out, (<[sl := step_state s t]> h). split; [done|].
    rewrite (next_lfsr_spec h sl tl s t Hs Ht).
    unfold step_out at 1. rewrite (last_default_Some s _ out Hlast).
    split; [done|]. rewrite (step_store_state h sl s t Hs), Hst.
    split; [done|]. rewrite <- Hst, <- Hfb.
    split; [by apply feedback_bit|].
    split; [by rewrite length_step_state|by apply step_state_bit].
  - intros -> ->.
    assert (sl <> tl) as Hne by (intros ->; rewrite Hs in Ht; discriminate Ht).
    by rewrite (first_bits_run h sl tl _ _ 3 Hne Hs Ht).
Qed.

Lemma lfsr_step_shift_witness :
  (exists (out : Z) (h' : heap),
      last (replicate 10 1) = Some out
      /\ next_lfsr (LfsrLive 0 1) [replicate 10 1; [0; 0; 1; 0; 0; 0; 0; 0; 0; 1]]
         = (Ok out, LfsrLive 0 1, h')
      /\ h' !! 0%nat
         = Some (xor_positions (replicate 10 1) [0; 0; 1; 0; 0; 0; 0; 0; 0; 1] 10
                   :: removelast (replicate 10 1))
      /\ bit (xor_positions (replicate 10 1) [0; 0; 1; 0; 0; 0; 0; 0; 0; 1] 10)
      /\ length (xor_positions (replicate 10 1) [0; 0; 1; 0; 0; 0; 0; 0; 0; 1] 10
                   :: removelast (replicate 10 1)) = 10%nat
      /\ Forall bit
           (xor_positions (replicate 10 1) [0; 0; 1; 0; 0; 0; 0; 0; 0; 1] 10
              :: removelast (replicate 10 1)))
  /\ ((replicate 10 1) = replicate 10 1 ->
      [0; 0; 1; 0; 0; 0; 0; 0; 0; 1] = [0; 0; 1; 0; 0; 0; 0; 0; 0; 1] ->
      (first_bits 0 1 3 [replicate 10 1; [0; 0; 1; 0; 0; 0; 0; 0; 0; 1]]).1
      = Ok [1; 1; 1]).
Proof.
  apply (lfsr_step_shift [replicate 10 1; [0; 0; 1; 0; 0; 0; 0; 0; 0; 1]] 0 1
           (replicate 10 1) [0; 0; 1; 0; 0; 0; 0; 0; 0; 1]);
    try reflexivity;
    repeat (apply Forall_cons; split; [first [by left|by right]|]);
    apply Forall_nil_2.
Defined.

(** The chips are the bits of the two registers, combined. *)

Section Combine.

Lemma gold_chips_zip (n : nat) :
  forall s1 s2,
    gold_chips n s1 s2
    = zip_with (fun b1 b2 => chip_of (Z.lxor b1 b2))
        (run_out lfsr1_taps n s1) (run_out lfsr2_taps n s2).
Proof.
  induction n as [|n IH]; intros s1 s2; [done|].
  cbn [gold_chips run_out zip_with]. by rewrite IH.
Qed.

Lemma run_out_bits (t : list Z) (n : nat) :
  forall s, Forall bit s -> Forall bit (run_out t n s).
Proof.
  induction n as [|n IH]; intros s Hs; [constructor|].
  cbn [run_out]. constructor; [by apply step_out_bit|].
  by apply IH, step_state_bit.
Qed.

Lemma run_out_lookup_bit (t s : list Z) (n i : nat) :
  Forall bit s -> (i < n)%nat ->
  exists b, run_out t n s !! i = Some b /\ bit b.
Proof.
  intros Hs Hi.
  destruct (lookup_lt_is_Some_2 (run_out t n s) i) as [b Hb];
    [by rewrite length_run_out|].
  exists b. split; [done|].
  pose proof (run_out_bits t n s Hs) as Hall.
  rewrite Forall_lookup in Hall. by apply (Hall i).
Qed.

End Combine.

(** C3. For every SV id 1..32 and every [n], chip [n] of
    [ca_code_gen(sv)] is -1 when [b1 XOR b2] is 0 and +1 when it is 1,
    where [b1] is output [n] of an [lfsr] seeded with ten 1s and tapped
    at positions 2 and 9, and [b2] is output [n] of an [lfsr] seeded with
    the SV's row of the seed table and tapped at positions 1, 2, 5, 7, 8
    and 9. *)
Theorem ca_chip_is_combined_bits (h : heap) (sv : Z) (n : nat) :
  1 <= sv <= 32 ->
  exists (row bits1 bits2 chips : list Z) (b1 b2 chip : Z),
    init_codes !! sv = Some row
    /\ (first_bits 0 1 (S n) [replicate 10 1; taps_at [2; 9]%nat]).1 = Ok bits1
    /\ (first_bits 0 1 (S n) [row; taps_at [1; 2; 5; 7; 8; 9]%nat]).1 = Ok bits2
    /\ (first_chips sv (S n) h).1 = Ok chips
    /\ bits1 !! n = Some b1 /\ bits2 !! n = Some b2 /\ chips !! n = Some chip
    /\ (Z.lxor b1 b2 = 0 /\ chip = -1 \/ Z.lxor b1 b2 = 1 /\ chip = 1).
Proof.
  intros Hsv. destruct (init_codes_in_range sv Hsv) as [row Hrow].
  destruct (run_out_lookup_bit lfsr1_taps (replicate 10 1) (S n) n ones_bits)
    as (b1 & Hb1 & Bb1); [lia|].
  destruct (run_out_lookup_bit lfsr2_taps row (S n) n
              (init_codes_bits sv row Hrow)) as (b2 & Hb2 & Bb2); [lia|].
  exists row, (run_out lfsr1_taps (S n) (replicate 10 1)),
    (run_out lfsr2_taps (S n) row),
    (gold_chips (S n) (replicate 10 1) row), b1, b2, (chip_of (Z.lxor b1 b2)).
  split; [done|].
  split; [by rewrite (first_bits_run _ 0 1 (replicate 10 1) lfsr1_taps)|].
  split; [by rewrite (first_bits_run _ 0 1 row lfsr2_taps)|].
  split; [by apply first_chips_gold|].
  split; [done|]. split; [done|].
  split; [by rewrite gold_chips_zip, lookup_zip_with, Hb1, Hb2|].
  destruct Bb1 as [-> | ->], Bb2 as [-> | ->]; vm_compute; auto.
Qed.

Lemma ca_chip_is_combined_bits_witness :
  1 <= 19 <= 32 /\
  exists (row bits1 bits2 chips : list Z) (b1 b2 chip : Z),
    init_codes !! 19 = Some row
    /\ (first_bits 0 1 (S 40) [replicate 10 1; taps_at [2; 9]%nat]).1 = Ok bits1
    /\ (first_bits 0 1 (S 40) [row; taps_at [1; 2; 5; 7; 8; 9]%nat]).1 = Ok bits2
    /\ (first_chips 19 (S 40) []).1 = Ok chips
    /\ bits1 !! 40%nat = Some b1 /\ bits2 !! 40%nat = Some b2
    /\ chips !! 40%nat = Some chip
    /\ (Z.lxor b1 b2 = 0 /\ chip = -1 \/ Z.lxor b1 b2 = 1 /\ chip = 1).
Proof. split; [lia|]. apply (ca_chip_is_combined_bits [] 19 40). lia. Defined.

(** * What the outputs of a generator of [lfsr] depend on *)

Section Agree.

Lemma pulls_S_fst {G} (next : G -> heap -> outcome Z * G * heap)
    (n : nat) (g g' : G) (h h' : heap) (v : Z) :
  next g h = (Ok v, g', h') ->
  (pulls next (S n) g h).1.1
  = match (pulls next n g' h').1.1 with
    | Ok vs => Ok (v :: vs)
    | Raise e => Raise e
    | Stuck => Stuck
    end.
Proof.
  intros Hnext. cbn [pulls]. rewrite Hnext.
  by destruct (pulls next n g' h') as [[[vs|e|] g''] h''].
Qed.

(** Two generators yield the same values when their registers hold the
    same list, their masks hold the same list, and register and mask are
    one object for both or for neither. *)
Lemma pulls_lfsr_agree (n : nat) :
  forall (h1 h2 : heap) (sl1 tl1 sl2 tl2 : nat) (s t : list Z),
    h1 !! sl1 = Some s -> h2 !! sl2 = Some s ->
    h1 !! tl1 = Some t -> h2 !! tl2 = Some t ->
    (sl1 = tl1 <-> sl2 = tl2) ->
    (pulls next_lfsr n (LfsrLive sl1 tl1) h1).1.1
    = (pulls next_lfsr n (LfsrLive sl2 tl2) h2).1.1.
Proof.
  induction n as [|n IH]; intros h1 h2 sl1 tl1 sl2 tl2 s t Hs1 Hs2 Ht1 Ht2 Hal;
    [done|].
  rewrite (pulls_S_fst _ _ _ _ _ _ _ (next_lfsr_spec h1 sl1 tl1 s t Hs1 Ht1)).
  rewrite (pulls_S_fst _ _ _ _ _ _ _ (next_lfsr_spec h2 sl2 tl2 s t Hs2 Ht2)).
  pose proof (step_store_state h1 sl1 s t Hs1) as Hs1'.
  pose proof (step_store_state h2 sl2 s t Hs2) as Hs2'.
  destruct (decide (sl1 = tl1)) as [E1|N1].
  - assert (sl2 = tl2) as E2 by tauto. subst tl1 tl2.
    by rewrite (IH _ (<[sl2 := step_state s t]> h2) sl1 sl1 sl2 sl2
                  (step_state s t) (step_state s t)).
  - assert (sl2 <> tl2) as N2 by tauto.
    rewrite (IH _ (<[sl2 := step_state s t]> h2) sl1 tl1 sl2 tl2
               (step_state s t) t); try done.
    + by rewrite list_lookup_insert_ne.
    + by rewrite list_lookup_insert_ne.
Qed.

End Agree.

(** C4, as the code has it.  [lfsr] looks at no length: whatever the
    lengths of seed and taps, the call builds a generator, every [next]
    yields a value (the last element of the register, or the feedback
    when the register is empty), the register keeps the length of the
    seed, and the feedback is the XOR over the tapped positions below the
    shorter of the two lengths. *)
Theorem lfsr_any_length (h : heap) (sl tl : nat) (s t : list Z) :
  h !! sl = Some s -> h !! tl = Some t ->
  lfsr sl tl h = (Ok (LfsrLive sl tl), h)
  /\ (exists h',
        next_lfsr (LfsrLive sl tl) h
        = (Ok (List.last s (feedback s t)), LfsrLive sl tl, h')
        /\ exists s', h' !! sl = Some s' /\ length s' = length s)
  /\ feedback s t = xor_positions s t (length s `min` length t)
  /\ forall n : nat,
       exists bits : list Z,
         (first_bits sl tl n h).1 = Ok bits /\ length bits = n.
Proof.
  intros Hs Ht. split; [done|]. split; [|split].
  - exists (<[sl := step_state s t]> h). split.
    + by rewrite (next_lfsr_spec h sl tl s t Hs Ht).
    + exists (step_state s t). split; [by apply step_store_state|].
      apply length_step_state.
  - rewrite <- foldl_take_xor_positions by lia.
    unfold feedback. rewrite take_ge; [done|]. rewrite length_zip_with. lia.
  - intros n.
    destruct (pulls_lfsr_invariant (fun _ => True) (fun _ => True)
                (fun _ _ _ => I) (fun _ _ _ => I) n h sl tl s Hs I)
      as (vs & h' & s' & Hrun & Hlen & _); [by eexists|].
    exists vs. split; [|done].
    unfold first_bits, lfsr. rewrite bind_ret. unfold collect.
    by rewrite Hrun.
Qed.

Lemma lfsr_any_length_witness :
  lfsr 0 1 [replicate 9 1; replicate 10 0]
  = (Ok (LfsrLive 0 1), [replicate 9 1; replicate 10 0])
  /\ (exists h',
        next_lfsr (LfsrLive 0 1) [replicate 9 1; replicate 10 0]
        = (Ok (List.last (replicate 9 1)
                 (feedback (replicate 9 1) (replicate 10 0))),
           LfsrLive 0 1, h')
        /\ exists s', h' !! 0%nat = Some s'
                      /\ length s' = length (replicate 9 1))
  /\ feedback (replicate 9 1) (replicate 10 0)
     = xor_positions (replicate 9 1) (replicate 10 0)
         (length (replicate 9 1) `min` length (replicate 10 0))
  /\ forall n : nat,
       exists bits : list Z,
         (first_bits 0 1 n [replicate 9 1; replicate 10 0]).1 = Ok bits
         /\ length bits = n.
Proof.
  apply (lfsr_any_length [replicate 9 1; replicate 10 0] 0 1
           (replicate 9 1) (replicate 10 0)); reflexivity.
Defined.

(** The claim's own example: [lfsr([1]*9, [0]*10)] is built without an
    error and yields values; and a tenth tap on a register of nine is
    dropped by [zip]. *)
Lemma lfsr_mismatch_accepted :
  length (replicate 9 1) <> 10%nat
  /\ lfsr 0 1 [replicate 9 1; replicate 10 0]
     = (Ok (LfsrLive 0 1), [replicate 9 1; replicate 10 0])
  /\ (first_bits 0 1 3 [replicate 9 1; replicate 10 0]).1 = Ok [1; 1; 1]
  /\ ~ (exists e h',
          lfsr 0 1 [replicate 9 1; replicate 10 0] = (Raise e, h'))
  /\ feedback (replicate 9 1) (replicate 9 0 ++ [1]) = 0.
Proof.
  split; [by vm_compute|]. split; [done|]. split; [done|].
  split; [|done]. intros (e & h' & He). discriminate He.
Qed.

(** C5, as the code has it.  For every integer [sv] outside 1..32 the
    lookup error, [KeyError(sv)], comes when the first chip is asked for,
    not from the call [ca_code_gen(sv)], which builds a generator; no
    chip is produced, whatever the number of chips asked for, and no
    other row of the table stands in. *)
Theorem ca_code_gen_invalid_sv (h : heap) (sv : Z) (n : nat) :
  ~ (1 <= sv <= 32) ->
  init_codes !! sv = None
  /\ (exists g, ca_code_gen sv h = (Ok g, h))
  /\ (first_chips sv (S n) h).1 = Raise (KeyError sv).
Proof.
  intros Hsv. split; [by apply init_codes_out_of_range|].
  split; [by eexists|].
  unfold first_chips, ca_code_gen. rewrite bind_ret. unfold collect.
  cbn [fst pulls next_ca]. by rewrite (ca_setup_KeyError h sv Hsv).
Qed.

Lemma ca_code_gen_invalid_sv_witness :
  ~ (1 <= 33 <= 32)
  /\ init_codes !! 33 = None
  /\ (exists g, ca_code_gen 33 [] = (Ok g, []))
  /\ (first_chips 33 (S 9) []).1 = Raise (KeyError 33).
Proof. split; [lia|]. apply (ca_code_gen_invalid_sv [] 33 9). lia. Defined.

(** The calls [ca_code_gen(0)] and [ca_code_gen(33)] do not fail. *)
Lemma ca_code_gen_call_does_not_fail :
  ~ (1 <= 0 <= 32) /\ ~ (1 <= 33 <= 32)
  /\ ca_code_gen 0 [] = (Ok (CaCreated 0), [])
  /\ ca_code_gen 33 [] = (Ok (CaCreated 33), [])
  /\ ~ (exists e h', ca_code_gen 0 [] = (Raise e, h'))
  /\ ~ (exists e h', ca_code_gen 33 [] = (Raise e, h')).
Proof.
  split; [lia|]. split; [lia|]. split; [done|]. split; [done|].
  split; intros (e & h' & He); discriminate He.
Qed.

(** C10. For every integer [sv] outside 1..32 the call [ca_code_gen(sv)]
    returns a generator and raises nothing; the first [next] raises
    [KeyError(sv)] from the lookup in the seed table, after which the
    generator is finished: no [next] ever yields a chip. *)
Theorem ca_code_gen_KeyError_at_first_next (h : heap) (sv : Z) :
  ~ (1 <= sv <= 32) ->
  ca_code_gen sv h = (Ok (CaCreated sv), h)
  /\ exists h',
       next_ca (CaCreated sv) h = (Raise (KeyError sv), CaDone, h')
       /\ forall (n : nat) (h'' : list (list Z)),
            pulls next_ca (S n) CaDone h''
            = (Raise StopIteration, CaDone, h'').
Proof.
  intros Hsv. split; [done|].
  exists (h ++ init_code_rows.*2 ++ [[1]; replicate 10 1; lfsr1_taps]). split.
  - cbn [next_ca]. by rewrite (ca_setup_KeyError h sv Hsv).
  - done.
Qed.

Lemma ca_code_gen_KeyError_at_first_next_witness :
  ~ (1 <= 0 <= 32)
  /\ ca_code_gen 0 [] = (Ok (CaCreated 0), [])
  /\ exists h',
       next_ca (CaCreated 0) [] = (Raise (KeyError 0), CaDone, h')
       /\ forall (n : nat) (h'' : list (list Z)),
            pulls next_ca (S n) CaDone h''
            = (Raise StopIteration, CaDone, h'').
Proof.
  split; [lia|]. apply (ca_code_gen_KeyError_at_first_next [] 0). lia.
Defined.

(** C6, as the code has it.  [lfsr] makes no copy: the generator holds
    the caller's seed list itself, and each step rewrites that list in
    place (the feedback in front, the last element gone), leaving every
    other list of the store as it was.  Hence a generator seeded from
    another list object, with another object as mask, yields the same
    values whether or not this one has been stepped. *)
Theorem lfsr_works_in_place (h : heap) (sl tl : nat) (s t : list Z) :
  h !! sl = Some s -> h !! tl = Some t ->
  lfsr sl tl h = (Ok (LfsrLive sl tl), h)
  /\ (exists v h',
        next_lfsr (LfsrLive sl tl) h = (Ok v, LfsrLive sl tl, h')
        /\ h' !! sl = Some (removelast (feedback s t :: s))
        /\ forall l, l <> sl -> h' !! l = h !! l)
  /\ forall (n m : nat) (sl2 tl2 : nat),
       sl2 <> sl -> tl2 <> sl ->
       is_Some (h !! sl2) -> is_Some (h !! tl2) ->
       (pulls next_lfsr m (LfsrLive sl2 tl2)
          (pulls next_lfsr n (LfsrLive sl tl) h).2).1.1
       = (pulls next_lfsr m (LfsrLive sl2 tl2) h).1.1.
Proof.
  intros Hs Ht. split; [done|]. split.
  - exists (step_out s t), (<[sl := step_state s t]> h).
    split; [by apply next_lfsr_spec|].
    split; [by apply step_store_state|].
    intros l Hl. by apply step_store_frame.
  - intros n m sl2 tl2 Hsl2 Htl2 [s2 Hs2] [t2 Ht2].
    destruct (pulls_lfsr_invariant (fun _ => True) (fun _ => True)
                (fun _ _ _ => I) (fun _ _ _ => I) n h sl tl s Hs I)
      as (vs & h' & s' & Hrun & _ & _ & _ & _ & _ & Hframe); [by eexists|].
    rewrite Hrun. cbn [snd].
    apply (pulls_lfsr_agree m h' h sl2 tl2 sl2 tl2 s2 t2); try done.
    + by rewrite Hframe.
    + by rewrite Hframe.
Qed.

Lemma lfsr_works_in_place_witness :
  lfsr 0 1 [replicate 10 1; lfsr1_taps; replicate 10 1]
  = (Ok (LfsrLive 0 1), [replicate 10 1; lfsr1_taps; replicate 10 1])
  /\ (exists v h',
        next_lfsr (LfsrLive 0 1) [replicate 10 1; lfsr1_taps; replicate 10 1]
        = (Ok v, LfsrLive 0 1, h')
        /\ h' !! 0%nat
           = Some (removelast
                     (feedback (replicate 10 1) lfsr1_taps :: replicate 10 1))
        /\ forall l, l <> 0%nat ->
             h' !! l = [replicate 10 1; lfsr1_taps; replicate 10 1] !! l)
  /\ forall (n m : nat) (sl2 tl2 : nat),
       sl2 <> 0%nat -> tl2 <> 0%nat ->
       is_Some ([replicate 10 1; lfsr1_taps; replicate 10 1] !! sl2) ->
       is_Some ([replicate 10 1; lfsr1_taps; replicate 10 1] !! tl2) ->
       (pulls next_lfsr m (LfsrLive sl2 tl2)
          (pulls next_lfsr n (LfsrLive 0 1)
             [replicate 10 1; lfsr1_taps; replicate 10 1]).2).1.1
       = (pulls next_lfsr m (LfsrLive sl2 tl2)
            [replicate 10 1; lfsr1_taps; replicate 10 1]).1.1.
Proof.
  apply (lfsr_works_in_place [replicate 10 1; lfsr1_taps; replicate 10 1] 0 1
           (replicate 10 1) lfsr1_taps); reflexivity.
Defined.

(** With [seed = [1]*10] and the taps of LFSR-1: one step changes the
    caller's list, and a second generator made from the same list yields
    0 after the first was stepped ten times, where it would have yielded
    1. *)
Lemma lfsr_seed_shared :
  let h := [replicate 10 1; lfsr1_taps] in
  h !! 0%nat = Some (replicate 10 1)
  /\ (pulls next_lfsr 1 (LfsrLive 0 1) h).2 !! 0%nat
     = Some [0; 1; 1; 1; 1; 1; 1; 1; 1; 1]
  /\ (pulls next_lfsr 1 (LfsrLive 0 1) h).2 !! 0%nat <> h !! 0%nat
  /\ lfsr 0 1 h = (Ok (LfsrLive 0 1), h)
  /\ (pulls next_lfsr 1 (LfsrLive 0 1) h).1.1 = Ok [1]
  /\ (pulls next_lfsr 1 (LfsrLive 0 1)
        (pulls next_lfsr 10 (LfsrLive 0 1) h).2).1.1 = Ok [0].
Proof.
  cbv zeta. split; [done|]. split; [by vm_compute|].
  split; [by vm_compute|]. split; [done|]. split; by vm_compute.
Qed.

(** C7. A register of ten elements holds ten elements before and after
    every step: within a step [insert] makes it eleven and [pop] makes it
    ten again, and after any number of steps it is ten. *)
Theorem lfsr_register_length (h : heap) (sl tl : nat) (s t : list Z) (n : nat) :
  h !! sl = Some s -> h !! tl = Some t -> length s = 10%nat ->
  (exists h1 s1 v h2 s2,
      list_insert_front sl (feedback s t) h = (Ok tt, h1)
      /\ h1 !! sl = Some s1 /\ length s1 = 11%nat
      /\ list_pop sl h1 = (Ok v, h2)
      /\ h2 !! sl = Some s2 /\ length s2 = 10%nat
      /\ lfsr_body sl tl h = (Ok v, h2))
  /\ exists bits h' s',
       pulls next_lfsr n (LfsrLive sl tl) h = (Ok bits, LfsrLive sl tl, h')
       /\ length bits = n
       /\ h' !! sl = Some s' /\ length s' = 10%nat.
Proof.
  intros Hs Ht Hlen. split.
  - pose proof (lookup_lt_Some _ _ _ Hs) as Hlt.
    exists (<[sl := feedback s t :: s]> h), (feedback s t :: s),
      (step_out s t), (<[sl := step_state s t]> h), (step_state s t).
    assert (<[sl := feedback s t :: s]> h !! sl = Some (feedback s t :: s))
      as Hs1 by (by apply list_lookup_insert_eq).
    split; [unfold list_insert_front; by rewrite (bind_load _ _ _ _ Hs)|].
    split; [done|]. split; [simpl; by rewrite Hlen|].
    split.
    { unfold list_pop. rewrite (bind_load _ _ _ _ Hs1), pop_cons, bind_store.
      by rewrite list_insert_insert_eq. }
    split; [by apply step_store_state|].
    split; [by rewrite length_step_state|by apply lfsr_body_spec].
  - destruct (pulls_lfsr_invariant (fun r => length r = 10%nat) (fun _ => True)
                (fun r t' Hr => eq_trans (length_step_state r t') Hr)
                (fun _ _ _ => I) n h sl tl s Hs Hlen)
      as (vs & h' & s' & Hrun & Hvs & _ & Hs' & Hlen' & _); [by eexists|].
    by exists vs, h', s'.
Qed.

Lemma lfsr_register_length_witness :
  (exists h1 s1 v h2 s2,
      list_insert_front 0 (feedback (replicate 10 1) lfsr1_taps)
        [replicate 10 1; lfsr1_taps] = (Ok tt, h1)
      /\ h1 !! 0%nat = Some s1 /\ length s1 = 11%nat
      /\ list_pop 0 h1 = (Ok v, h2)
      /\ h2 !! 0%nat = Some s2 /\ length s2 = 10%nat
      /\ lfsr_body 0 1 [replicate 10 1; lfsr1_taps] = (Ok v, h2))
  /\ exists bits h' s',
       pulls next_lfsr 25 (LfsrLive 0 1) [replicate 10 1; lfsr1_taps]
       = (Ok bits, LfsrLive 0 1, h')
       /\ length bits = 25%nat
       /\ h' !! 0%nat = Some s' /\ length s' = 10%nat.
Proof.
  apply (lfsr_register_length [replicate 10 1; lfsr1_taps] 0 1
           (replicate 10 1) lfsr1_taps 25); reflexivity.
Defined.

Lemma gold_chips_alphabet (n : nat) :
  forall s1 s2, Forall (fun c => c = -1 \/ c = 1) (gold_chips n s1 s2).
Proof.
  induction n as [|n IH]; intros s1 s2; [constructor|].
  cbn [gold_chips]. constructor; [|apply IH].
  unfold chip_of. destruct (_ =? 0); auto.
Qed.

(** C8. For every SV id 1..32 every chip of [ca_code_gen(sv)] is -1 or
    +1, and for every seed and taps of bits every value of [lfsr] is 0 or
    1. *)
Theorem chips_and_bits_alphabet :
  (forall (h : heap) (sv : Z) (n : nat),
      1 <= sv <= 32 ->
      exists chips : list Z,
        (first_chips sv n h).1 = Ok chips
        /\ length chips = n
        /\ Forall (fun c => c = -1 \/ c = 1) chips)
  /\ (forall (h : heap) (sl tl : nat) (s t : list Z) (n : nat),
        h !! sl = Some s -> h !! tl = Some t ->
        Forall bit s -> Forall bit t ->
        exists bits : list Z,
          (first_bits sl tl n h).1 = Ok bits
          /\ length bits = n
          /\ Forall bit bits).
Proof.
  split.
  - intros h sv n Hsv. destruct (init_codes_in_range sv Hsv) as [row Hrow].
    exists (gold_chips n (replicate 10 1) row).
    split; [by apply first_chips_gold|].
    split; [apply length_gold_chips|apply gold_chips_alphabet].
  - intros h sl tl s t n Hs Ht Bs _.
    destruct (pulls_lfsr_invariant (Forall bit) bit
                (fun r t' => step_state_bit r t') (fun r t' => step_out_bit r t')
                n h sl tl s Hs Bs)
      as (vs & h' & s' & Hrun & Hlen & Hvs & _); [by eexists|].
    exists vs. split; [|done].
    unfold first_bits, lfsr. rewrite bind_ret. unfold collect.
    by rewrite Hrun.
Qed.

Lemma chips_and_bits_alphabet_witness :
  (1 <= 32 <= 32 /\
   exists chips : list Z,
     (first_chips 32 100 []).1 = Ok chips
     /\ length chips = 100%nat
     /\ Forall (fun c => c = -1 \/ c = 1) chips)
  /\ ([[0; 1; 1; 0; 1]; [1; 0; 0; 1; 1]] !! 0%nat = Some [0; 1; 1; 0; 1] /\
      exists bits : list Z,
        (first_bits 0 1 100 [[0; 1; 1; 0; 1]; [1; 0; 0; 1; 1]]).1 = Ok bits
        /\ length bits = 100%nat
        /\ Forall bit bits).
Proof.
  destruct chips_and_bits_alphabet as [Hchips Hbits].
  split; (split; [first [lia|reflexivity]|]).
  - apply (Hchips [] 32 100%nat). lia.
  - apply (Hbits [[0; 1; 1; 0; 1]; [1; 0; 0; 1; 1]] 0%nat 1%nat
             [0; 1; 1; 0; 1] [1; 0; 0; 1; 1] 100%nat);
      try reflexivity;
      repeat (apply Forall_cons; split; [first [by left|by right]|]);
      apply Forall_nil_2.
Defined.

(** C9, as the code has it.  For every SV id 1..32 and every [n], two
    generators made by [ca_code_gen(sv)], each in whatever store it is
    made (so also one after the other in one program), yield the same
    first [n] chips.  Two generators of [lfsr] yield the same first [n]
    values when their seeds hold the same list, their masks hold the same
    list, seed and mask are one object for both or for neither, and each
    starts from its seed as given: run apart, or in one program one after
    the other on different seed objects, the first seed not being the
    second mask.  No other state enters. *)
Theorem generators_deterministic :
  (forall (h1 h2 : heap) (sv : Z) (n : nat),
      1 <= sv <= 32 ->
      exists chips : list Z,
        (first_chips sv n h1).1 = Ok chips
        /\ (first_chips sv n h2).1 = Ok chips)
  /\ (forall (h1 h2 : heap) (sl1 tl1 sl2 tl2 : nat) (s t : list Z) (n : nat),
        h1 !! sl1 = Some s -> h2 !! sl2 = Some s ->
        h1 !! tl1 = Some t -> h2 !! tl2 = Some t ->
        (sl1 = tl1 <-> sl2 = tl2) ->
        exists bits : list Z,
          (first_bits sl1 tl1 n h1).1 = Ok bits
          /\ (first_bits sl2 tl2 n h2).1 = Ok bits)
  /\ (forall (h : heap) (sl1 tl1 sl2 tl2 : nat) (s t : list Z) (n : nat),
        h !! sl1 = Some s -> h !! sl2 = Some s ->
        h !! tl1 = Some t -> h !! tl2 = Some t ->
        sl1 <> sl2 -> sl1 <> tl2 ->
        (sl1 = tl1 <-> sl2 = tl2) ->
        exists (bits : list Z) (h' : list (list Z)),
          first_bits sl1 tl1 n h = (Ok bits, h')
          /\ (first_bits sl2 tl2 n h').1 = Ok bits).
Proof.
  split; [|split].
  - intros h1 h2 sv n Hsv. destruct (init_codes_in_range sv Hsv) as [row Hrow].
    exists (gold_chips n (replicate 10 1) row).
    split; by apply first_chips_gold.
  - intros h1 h2 sl1 tl1 sl2 tl2 s t n Hs1 Hs2 Ht1 Ht2 Hal.
    destruct (pulls_lfsr_invariant (fun _ => True) (fun _ => True)
                (fun _ _ _ => I) (fun _ _ _ => I) n h1 sl1 tl1 s Hs1 I)
      as (vs & h' & s' & Hrun & _); [by eexists|].
    exists vs. unfold first_bits, lfsr. rewrite !bind_ret. unfold collect.
    cbn [fst].
    rewrite <- (pulls_lfsr_agree n h1 h2 sl1 tl1 sl2 tl2 s t Hs1 Hs2 Ht1 Ht2 Hal).
    by rewrite Hrun.
  - intros h sl1 tl1 sl2 tl2 s t n Hs1 Hs2 Ht1 Ht2 Hss Hst Hal.
    destruct (pulls_lfsr_invariant (fun _ => True) (fun _ => True)
                (fun _ _ _ => I) (fun _ _ _ => I) n h sl1 tl1 s Hs1 I)
      as (vs & h' & s' & Hrun & _ & _ & _ & _ & _ & Hframe); [by eexists|].
    exists vs, h'. unfold first_bits, lfsr. rewrite !bind_ret. unfold collect.
    rewrite Hrun. split; [done|]. cbn [fst].
    rewrite <- (pulls_lfsr_agree n h h' sl1 tl1 sl2 tl2 s t); try done.
    + by rewrite Hrun.
    + rewrite Hframe; [done|]. by intros ->.
    + rewrite Hframe; [done|]. by intros ->.
Qed.

Lemma generators_deterministic_witness :
  (1 <= 5 <= 32 /\
   exists chips : list Z,
     (first_chips 5 2000 []).1 = Ok chips
     /\ (first_chips 5 2000 [[1; 2; 3]; []]).1 = Ok chips)
  /\ ([replicate 10 1; lfsr2_taps] !! 0%nat = Some (replicate 10 1) /\
      exists bits : list Z,
        (first_bits 0 1 50 [replicate 10 1; lfsr2_taps]).1 = Ok bits
        /\ (first_bits 2 0 50 [lfsr2_taps; []; replicate 10 1]).1 = Ok bits)
  /\ ([replicate 10 1; lfsr2_taps; replicate 10 1] !! 2%nat
      = Some (replicate 10 1) /\
      exists (bits : list Z) (h' : list (list Z)),
        first_bits 0 1 50 [replicate 10 1; lfsr2_taps; replicate 10 1]
        = (Ok bits, h')
        /\ (first_bits 2 1 50 h').1 = Ok bits).
Proof.
  destruct generators_deterministic as (Hchips & Hbits & Hseq).
  split; [|split]; (split; [first [lia|reflexivity]|]).
  - apply (Hchips [] [[1; 2; 3]; []] 5 2000%nat). lia.
  - apply (Hbits [replicate 10 1; lfsr2_taps] [lfsr2_taps; []; replicate 10 1]
             0%nat 1%nat 2%nat 0%nat (replicate 10 1) lfsr2_taps 50%nat);
      try reflexivity.
    split; intros He; discriminate He.
  - apply (Hseq [replicate 10 1; lfsr2_taps; replicate 10 1]
             0%nat 1%nat 2%nat 1%nat (replicate 10 1) lfsr2_taps 50%nat);
      try reflexivity; try discriminate.
    split; intros He; discriminate He.
Defined.

(** Equal lists do not always give equal values.  On [l = [1, 0, 1, 1]]
    the generator [lfsr(l, l)] and a generator on two separate lists
    equal to [l] differ from the sixth value on; and of two generators
    made from one list of ten 1s with the taps of LFSR-1 in one program,
    the second, pulled after the first has yielded ten values, yields
    other values than the first did. *)
Lemma lfsr_equal_lists_differ :
  (first_bits 0 0 8 [[1; 0; 1; 1]]).1 = Ok [1; 1; 0; 1; 1; 1; 1; 0]
  /\ (first_bits 0 1 8 [[1; 0; 1; 1]; [1; 0; 1; 1]]).1
     = Ok [1; 1; 0; 1; 1; 0; 1; 1]
  /\ (first_bits 0 0 8 [[1; 0; 1; 1]]).1
     <> (first_bits 0 1 8 [[1; 0; 1; 1]; [1; 0; 1; 1]]).1
  /\ (first_bits 0 1 10 [replicate 10 1; lfsr1_taps]).1
     = Ok [1; 1; 1; 1; 1; 1; 1; 1; 1; 1]
  /\ (first_bits 0 1 10 (first_bits 0 1 10 [replicate 10 1; lfsr1_taps]).2).1
     = Ok [0; 0; 0; 1; 1; 1; 0; 0; 0; 1]
  /\ (first_bits 0 1 10 [replicate 10 1; lfsr1_taps]).1
     <> (first_bits 0 1 10
           (first_bits 0 1 10 [replicate 10 1; lfsr1_taps]).2).1.
Proof. repeat split; by vm_compute. Qed.

(** * More on [lfsr]: what the register yields *)

Section Register.

Variable t : list Z.

Lemma step_out_snoc (l : list Z) (x : Z) : step_out (l ++ [x]) t = x.
Proof. unfold step_out. apply last_last. Qed.

Lemma step_state_snoc (l : list Z) (x : Z) :
  step_state (l ++ [x]) t = feedback (l ++ [x]) t :: l.
Proof.
  unfold step_state. rewrite app_comm_cons. apply removelast_last.
Qed.

Lemma run_out_add (n m : nat) :
  forall s, run_out t (n + m) s = run_out t n s ++ run_out t m (run_state t n s).
Proof.
  induction n as [|n IH]; intros s; [done|].
  cbn [Nat.add run_out run_state app]. by rewrite IH.
Qed.

(** The elements of the seed come out last one first, whatever the
    taps. *)
Lemma run_out_suffix (q : list Z) :
  forall p, run_out t (length q) (p ++ q) = reverse q.
Proof.
  induction q as [|x q IH] using rev_ind; intros p; [done|].
  rewrite length_app, Nat.add_comm. cbn [length Nat.add run_out].
  rewrite app_assoc, step_out_snoc, step_state_snoc, reverse_snoc.
  f_equal. rewrite app_comm_cons. apply IH.
Qed.

Lemma run_out_take_reverse (s : list Z) (n : nat) :
  (n <= length s)%nat -> run_out t n s = take n (reverse s).
Proof.
  intros Hn. rewrite take_reverse.
  rewrite <- (take_drop (length s - n) s) at 1.
  replace n with (length (drop (length s - n) s)) at 1
    by (rewrite length_drop; lia).
  apply run_out_suffix.
Qed.

End Register.

(** X1. The first [len(seed)] values of [lfsr(seed, taps)] are the seed
    read back to front, whatever the taps (held in another list object):
    the first [n <= len(seed)] values are the first [n] elements of the
    reversed seed. *)
Theorem lfsr_yields_seed_reversed (h : heap) (sl tl : nat) (s t : list Z) (n : nat) :
  sl <> tl -> h !! sl = Some s -> h !! tl = Some t -> (n <= length s)%nat ->
  (first_bits sl tl n h).1 = Ok (take n (reverse s))
  /\ (first_bits sl tl (length s) h).1 = Ok (reverse s).
Proof.
  intros Hne Hs Ht Hn.
  rewrite !(first_bits_run h sl tl s t) by done. cbn [fst].
  rewrite !run_out_take_reverse by lia.
  split; [done|]. by rewrite take_ge by (rewrite length_reverse; lia).
Qed.

Lemma lfsr_yields_seed_reversed_witness :
  (first_bits 0 1 2 [[1; 0; 0; 1; 1]; [0; 1; 1; 0; 1]]).1
  = Ok (take 2 (reverse [1; 0; 0; 1; 1]))
  /\ (first_bits 0 1 (length [1; 0; 0; 1; 1])
        [[1; 0; 0; 1; 1]; [0; 1; 1; 0; 1]]).1
     = Ok (reverse [1; 0; 0; 1; 1]).
Proof.
  apply (lfsr_yields_seed_reversed [[1; 0; 0; 1; 1]; [0; 1; 1; 0; 1]] 0 1
           [1; 0; 0; 1; 1] [0; 1; 1; 0; 1] 2);
    [discriminate|reflexivity|reflexivity|simpl; lia].
Defined.

(** * More on [lfsr]: registers and masks that give no feedback *)

Section Zero.

Lemma foldl_feedback_zero (l : list (Z * Z)) :
  Forall (fun bt : Z * Z => fst bt = 0) l ->
  foldl (fun fb bt => if snd bt =? 1 then Z.lxor fb (fst bt) else fb) 0 l = 0.
Proof.
  induction 1 as [|[b a] l Hb Hl IH]; [done|].
  cbn [foldl fst snd] in *. subst b. by destruct (a =? 1).
Qed.

Lemma feedback_zero (s t : list Z) : Forall (fun x => x = 0) s -> feedback s t = 0.
Proof.
  intros Hs. apply foldl_feedback_zero.
  by apply (Forall_zip_fst (fun x => x = 0)).
Qed.




Lemma removelast_zero (s : list Z) :
  Forall (fun x => x = 0) s -> removelast (0 :: s) = s.
Proof.
  induction 1 as [|x s -> Hs IH]; [done|].
  change (removelast (0 :: 0 :: s)) with (0 :: removelast (0 :: s)).
  by rewrite IH.
Qed.

Lemma step_state_zero (s t : list Z) :
  Forall (fun x => x = 0) s -> step_state s t = s.
Proof.
  intros Hs. unfold step_state. rewrite feedback_zero by done.
  by apply removelast_zero.
Qed.

Lemma step_out_zero (s t : list Z) :
  Forall (fun x => x = 0) s -> step_out s t = 0.
Proof.
  intros Hs. unfold step_out. rewrite feedback_zero by done.
  by apply (Forall_last_default (fun x => x = 0)).
Qed.




End Zero.

(** X2. A register that holds only 0s, the empty register included,
    yields 0 at every step and is left as it was, whatever the taps (also
    when seed and taps are one list object); the whole store is as
    before. *)
Theorem lfsr_zero_register (h : heap) (sl tl : nat) (s t : list Z) (n : nat) :
  h !! sl = Some s -> h !! tl = Some t -> Forall (fun x => x = 0) s ->
  first_bits sl tl n h = (Ok (replicate n 0), h).
Proof.
  intros Hs Ht Hz.
  destruct (pulls_lfsr_invariant (fun r => r = s) (fun v => v = 0)
              (fun r t' Hr => eq_trans (f_equal (fun r => step_state r t') Hr)
                                (step_state_zero s t' Hz))
              (fun r t' Hr => eq_trans (f_equal (fun r => step_out r t') Hr)
                                (step_out_zero s t' Hz))
              n h sl tl s Hs eq_refl)
    as (vs & h' & s' & Hrun & Hlen & Hvs & Hs' & -> & _ & Hframe);
    [by eexists|].
  unfold first_bits, lfsr. rewrite bind_ret. unfold collect. rewrite Hrun.
  cbn [fst snd]. f_equal.
  - f_equal. symmetry. apply replicate_as_Forall_2; [done|].
    eapply Forall_impl; [exact Hvs|]. by intros v ->.
  - apply list_eq. intros l. destruct (decide (l = sl)) as [->|Hl].
    + by rewrite Hs', Hs.
    + by apply Hframe.
Qed.

Lemma lfsr_zero_register_witness :
  first_bits 0 1 7 [[]; [1; 1; 0; 1]] = (Ok (replicate 7 0), [[]; [1; 1; 0; 1]]).
Proof.
  apply (lfsr_zero_register [[]; [1; 1; 0; 1]] 0 1 [] [1; 1; 0; 1] 7);
    [reflexivity|reflexivity|apply Forall_nil_2].
Defined.



(** * More on [lfsr]: the mask is read through [tap == 1] only *)

Section Taps.




End Taps.



(** * More on [lfsr]: the register is linear over XOR *)

Section Linear.

Lemma lxor_interchange (a b x y : Z) :
  Z.lxor (Z.lxor a b) (Z.lxor x y) = Z.lxor (Z.lxor a x) (Z.lxor b y).
Proof.
  rewrite !Z.lxor_assoc. f_equal.
  rewrite <- !Z.lxor_assoc. f_equal. apply Z.lxor_comm.
Qed.

Lemma foldl_feedback_lxor (s1 : list Z) :
  forall (s2 t : list Z) (a b : Z),
    length s1 = length s2 ->
    foldl (fun fb bt => if snd bt =? 1 then Z.lxor fb (fst bt) else fb)
      (Z.lxor a b) (zip (zip_with Z.lxor s1 s2) t)
    = Z.lxor
        (foldl (fun fb bt => if snd bt =? 1 then Z.lxor fb (fst bt) else fb)
           a (zip s1 t))
        (foldl (fun fb bt => if snd bt =? 1 then Z.lxor fb (fst bt) else fb)
           b (zip s2 t)).
Proof.
  induction s1 as [|x s1 IH]; intros [|y s2] [|c t] a b Hlen; try done.
  cbn [zip_with foldl fst snd]. injection Hlen as Hlen.
  destruct (c =? 1); [|by apply IH].
  rewrite <- IH by done. by rewrite lxor_interchange.
Qed.

Lemma feedback_lxor (s1 s2 t : list Z) :
  length s1 = length s2 ->
  feedback (zip_with Z.lxor s1 s2) t = Z.lxor (feedback s1 t) (feedback s2 t).
Proof.
  intros Hlen. unfold feedback.
  rewrite <- foldl_feedback_lxor by done. done.
Qed.

Lemma last_zip_with_lxor (s1 : list Z) :
  forall (s2 : list Z) (d1 d2 : Z),
    length s1 = length s2 ->
    List.last (zip_with Z.lxor s1 s2) (Z.lxor d1 d2)
    = Z.lxor (List.last s1 d1) (List.last s2 d2).
Proof.
  induction s1 as [|x s1 IH]; intros [|y s2] d1 d2 Hlen; try done.
  injection Hlen as Hlen. cbn [zip_with].
  rewrite !last_default_cons. by apply IH.
Qed.

Lemma removelast_zip_with_lxor (s1 : list Z) :
  forall s2 : list Z,
    length s1 = length s2 ->
    removelast (zip_with Z.lxor s1 s2)
    = zip_with Z.lxor (removelast s1) (removelast s2).
Proof.
  induction s1 as [|x s1 IH]; intros [|y s2] Hlen; try done.
  injection Hlen as Hlen. destruct s1 as [|x' s1], s2 as [|y' s2]; try done.
  change (removelast (x :: x' :: s1)) with (x :: removelast (x' :: s1)).
  change (removelast (y :: y' :: s2)) with (y :: removelast (y' :: s2)).
  cbn [zip_with]. rewrite <- (IH (y' :: s2)) by done. done.
Qed.

Lemma run_out_lxor (t : list Z) (n : nat) :
  forall s1 s2 : list Z,
    length s1 = length s2 ->
    run_out t n (zip_with Z.lxor s1 s2)
    = zip_with Z.lxor (run_out t n s1) (run_out t n s2).
Proof.
  induction n as [|n IH]; intros s1 s2 Hlen; [done|].
  cbn [run_out zip_with]. unfold step_out, step_state.
  rewrite feedback_lxor, last_zip_with_lxor by done. f_equal.
  change (Z.lxor (feedback s1 t) (feedback s2 t) :: zip_with Z.lxor s1 s2)
    with (zip_with Z.lxor (feedback s1 t :: s1) (feedback s2 t :: s2)).
  rewrite removelast_zip_with_lxor by (simpl; by rewrite Hlen).
  apply IH. by rewrite !length_removelast_cons.
Qed.

End Linear.

(** X5. [lfsr] is linear over XOR: seeded with the element-wise XOR of
    two seeds of one length, it yields the XOR of what it yields from
    each of the two seeds, for any taps held in a list object that is
    none of the three seed lists. *)
Theorem lfsr_linear (h : heap) (a1 a2 a3 tl : nat) (s1 s2 t : list Z) (n : nat) :
  h !! a1 = Some s1 -> h !! a2 = Some s2 ->
  h !! a3 = Some (zip_with Z.lxor s1 s2) -> h !! tl = Some t ->
  a1 <> tl -> a2 <> tl -> a3 <> tl -> length s1 = length s2 ->
  exists bits1 bits2 : list Z,
    (first_bits a1 tl n h).1 = Ok bits1
    /\ (first_bits a2 tl n h).1 = Ok bits2
    /\ (first_bits a3 tl n h).1 = Ok (zip_with Z.lxor bits1 bits2).
Proof.
  intros H1 H2 H3 Ht N1 N2 N3 Hlen.
  exists (run_out t n s1), (run_out t n s2).
  rewrite (first_bits_run h a1 tl s1 t) by done.
  rewrite (first_bits_run h a2 tl s2 t) by done.
  rewrite (first_bits_run h a3 tl (zip_with Z.lxor s1 s2) t) by done.
  cbn [fst]. by rewrite run_out_lxor.
Qed.

Lemma lfsr_linear_witness :
  exists bits1 bits2 : list Z,
    (first_bits 0 3 30 [[1; 1; 0; 0]; [1; 0; 1; 0]; [0; 1; 1; 0]; [0; 0; 1; 1]]).1
    = Ok bits1
    /\ (first_bits 1 3 30
          [[1; 1; 0; 0]; [1; 0; 1; 0]; [0; 1; 1; 0]; [0; 0; 1; 1]]).1
       = Ok bits2
    /\ (first_bits 2 3 30
          [[1; 1; 0; 0]; [1; 0; 1; 0]; [0; 1; 1; 0]; [0; 0; 1; 1]]).1
       = Ok (zip_with Z.lxor bits1 bits2).
Proof.
  apply (lfsr_linear [[1; 1; 0; 0]; [1; 0; 1; 0]; [0; 1; 1; 0]; [0; 0; 1; 1]]
           0 1 2 3 [1; 1; 0; 0] [1; 0; 1; 0] [0; 0; 1; 1] 30);
    try discriminate; reflexivity.
Defined.

(** * More on [ca_code_gen]: the codes of the 32 SVs *)

Section Codes.

Lemma first_ten_of_rows :
  Forall (fun r : Z * list Z =>
            gold_chips 10 (replicate 10 1) r.2
            = (fun b => 1 - 2 * b) <$> reverse r.2)
         init_code_rows.
Proof.
  repeat (apply Forall_cons; split; [vm_compute; reflexivity|]).
  apply Forall_nil_2.
Qed.

Lemma first_ten_NoDup :
  NoDup ((fun r : Z * list Z => gold_chips 10 (replicate 10 1) r.2)
           <$> init_code_rows).
Proof. apply (bool_decide_unpack _). by vm_compute. Qed.

Lemma differ_within_spec (n : nat) :
  forall l1 l2 : list Z,
    differ_within n l1 l2 = true ->
    exists (i : nat) (x y : Z),
      (i < n)%nat /\ l1 !! i = Some x /\ l2 !! i = Some y /\ x <> y.
Proof.
  induction n as [|n IH]; intros [|x l1] [|y l2] H; try discriminate H.
  cbn [differ_within] in H. apply orb_true_iff in H as [H|H].
  - exists 0%nat, x, y. repeat split; [lia|].
    intros ->. by rewrite Z.eqb_refl in H.
  - destruct (IH _ _ H) as (i & a & b & Hi & Ha & Hb & Hab).
    exists (S i), a, b. repeat split; [lia|done..].
Qed.

Lemma no_shift_matches_spec (n c : nat) (l : list Z) :
  forall tl : list Z,
    no_shift_matches n c l tl = true ->
    forall d : nat, (1 <= d <= c)%nat -> differ_within n l (drop d tl) = true.
Proof.
  induction c as [|c IH]; intros tl H d Hd; [lia|].
  destruct tl as [|x tl]; [discriminate H|].
  cbn [no_shift_matches] in H. apply andb_true_iff in H as [H1 H2].
  destruct d as [|[|d]]; [lia|done|].
  change (drop (S (S d)) (x :: tl)) with (drop (S d) tl).
  apply IH; [done|lia].
Qed.

Lemma no_shift_of_rows :
  Forall (fun r : Z * list Z =>
            no_shift_matches 1023 1022
              (gold_chips 2046 (replicate 10 1) r.2)
              (gold_chips 2046 (replicate 10 1) r.2) = true)
         init_code_rows.
Proof.
  repeat (apply Forall_cons; split; [vm_compute; reflexivity|]).
  apply Forall_nil_2.
Qed.

End Codes.

(** X6. The first ten chips of [ca_code_gen(sv)] are the SV's row of the
    seed table read back to front, a 0 of the row giving +1 and a 1
    giving -1. *)
Theorem ca_first_ten_chips (h : heap) (sv : Z) :
  1 <= sv <= 32 ->
  exists row : list Z,
    init_codes !! sv = Some row
    /\ (first_chips sv 10 h).1 = Ok ((fun b => 1 - 2 * b) <$> reverse row).
Proof.
  intros Hsv. destruct (init_codes_in_range sv Hsv) as [row Hrow].
  exists row. split; [done|]. rewrite (first_chips_gold h sv row 10 Hrow).
  apply init_codes_lookup in Hrow.
  pose proof first_ten_of_rows as Hall. rewrite Forall_forall in Hall.
  specialize (Hall _ Hrow). cbn [snd] in Hall. by rewrite Hall.
Qed.

Lemma ca_first_ten_chips_witness :
  1 <= 24 <= 32 /\
  exists row : list Z,
    init_codes !! 24 = Some row
    /\ (first_chips 24 10 []).1 = Ok ((fun b => 1 - 2 * b) <$> reverse row).
Proof. split; [lia|]. apply (ca_first_ten_chips [] 24). lia. Defined.

(** X7. Two different SV ids in 1..32 give different codes: already the
    first ten chips differ. *)
Theorem ca_codes_differ (h h' : heap) (sv sv' : Z) :
  1 <= sv <= 32 -> 1 <= sv' <= 32 -> sv <> sv' ->
  (first_chips sv 10 h).1 <> (first_chips sv' 10 h').1.
Proof.
  intros Hsv Hsv' Hne.
  destruct (init_codes_in_range sv Hsv) as [row Hrow].
  destruct (init_codes_in_range sv' Hsv') as [row' Hrow'].
  rewrite (first_chips_gold h sv row 10 Hrow).
  rewrite (first_chips_gold h' sv' row' 10 Hrow').
  pose proof first_ten_NoDup as Hnd.
  set (G := gold_chips 10 (replicate 10 1)) in *.
  intros Heq. assert (G row = G row') as Heq' by congruence.
  apply Hne.
  apply init_codes_lookup, list_elem_of_lookup in Hrow as [i Hi].
  apply init_codes_lookup, list_elem_of_lookup in Hrow' as [j Hj].
  assert (i = j) as ->.
  { apply (NoDup_lookup _ i j (G row) Hnd).
    - by rewrite list_lookup_fmap, Hi.
    - by rewrite list_lookup_fmap, Hj, Heq'. }
  rewrite Hi in Hj. by injection Hj.
Qed.

Lemma ca_codes_differ_witness :
  1 <= 3 <= 32 /\ 1 <= 4 <= 32 /\ 3 <> 4
  /\ (first_chips 3 10 []).1 <> (first_chips 4 10 [[0]]).1.
Proof.
  split; [lia|]. split; [lia|]. split; [lia|].
  apply (ca_codes_differ [] [[0]] 3 4); lia.
Defined.

(** X8. 1023 is the least period of every code: for every SV id 1..32
    and every shift [d] with 0 < d < 1023, some chip [i] below 1023
    differs from chip [i + d]. *)
Theorem ca_code_least_period (h : heap) (sv : Z) (d : nat) :
  1 <= sv <= 32 -> (0 < d < 1023)%nat ->
  exists (chips : list Z) (i : nat) (x y : Z),
    (first_chips sv 2046 h).1 = Ok chips
    /\ (i < 1023)%nat
    /\ chips !! i = Some x /\ chips !! (i + d)%nat = Some y /\ x <> y.
Proof.
  intros Hsv Hd. destruct (init_codes_in_range sv Hsv) as [row Hrow].
  exists (gold_chips 2046 (replicate 10 1) row).
  pose proof (first_chips_gold h sv row 2046 Hrow) as Hchips.
  apply init_codes_lookup in Hrow.
  pose proof no_shift_of_rows as Hall. rewrite Forall_forall in Hall.
  specialize (Hall _ Hrow). cbn [snd] in Hall.
  pose proof (no_shift_matches_spec _ _ _ _ Hall d) as Hdiff.
  destruct (differ_within_spec _ _ _ (Hdiff ltac:(lia)))
    as (i & x & y & Hi & Hx & Hy & Hxy).
  exists i, x, y. rewrite lookup_drop in Hy.
  repeat split; try done. by rewrite Nat.add_comm.
Qed.

Lemma ca_code_least_period_witness :
  1 <= 11 <= 32 /\ (0 < 341 < 1023)%nat /\
  exists (chips : list Z) (i : nat) (x y : Z),
    (first_chips 11 2046 []).1 = Ok chips
    /\ (i < 1023)%nat
    /\ chips !! i = Some x /\ chips !! (i + 341)%nat = Some y /\ x <> y.
Proof.
  split; [lia|]. split; [lia|].
  apply (ca_code_least_period [] 11 341); lia.
Defined.

(** * More on [ca_code_gen]: what it does to the store *)

Section Frame.

Variable k : nat.

Lemma lfsr_body_frame (sl tl : nat) (h : heap) :
  (k <= sl)%nat ->
  length (lfsr_body sl tl h).2 = length h
  /\ take k (lfsr_body sl tl h).2 = take k h.
Proof using Type.
  intros Hk. destruct (h !! sl) as [s|] eqn:Hs.
  - destruct (h !! tl) as [t|] eqn:Ht.
    + rewrite (lfsr_body_spec h sl tl s t Hs Ht). cbn [snd].
      by rewrite length_insert, take_insert_ge.
    + unfold lfsr_body. rewrite (bind_load _ _ _ _ Hs).
      unfold bind, load. by rewrite Ht.
  - unfold lfsr_body, bind, load. by rewrite Hs.
Qed.

Lemma next_lfsr_frame (g : lfsr_gen) (h : heap) :
  lfsr_above k g ->
  length (next_lfsr g h).2 = length h
  /\ take k (next_lfsr g h).2 = take k h
  /\ lfsr_above k (next_lfsr g h).1.2.
Proof using Type.
  destruct g as [sl tl|]; intros Hg; [|done].
  destruct (lfsr_body_frame sl tl h Hg) as [Hlen Htake].
  unfold next_lfsr.
  by destruct (lfsr_body sl tl h) as [[v|e|] h'].
Qed.

Lemma next_ca_frame (g : ca_gen) (h : heap) :
  ca_above k g ->
  length (next_ca g h).2 = length h
  /\ take k (next_ca g h).2 = take k h
  /\ ca_above k (next_ca g h).1.2.
Proof using Type.
  destruct g as [sv|g1 g2|]; intros Hg; [done| |done].
  destruct Hg as [Hg1 Hg2]. cbn [next_ca]. unfold ca_body.
  destruct (next_lfsr_frame g1 h Hg1) as (L1 & T1 & A1).
  destruct (next_lfsr g1 h) as [[[b1|e|] g1'] h1]; cbn [fst snd] in *;
    [|done..].
  destruct (next_lfsr_frame g2 h1 Hg2) as (L2 & T2 & A2).
  destruct (next_lfsr g2 h1) as [[[b2|e|] g2'] h2]; cbn [fst snd] in *.
  - cbn zeta. destruct (chip_table !! Z.lxor b1 b2); cbn [fst snd];
      (split; [congruence|]); (split; [congruence|done]).
  - split; [congruence|]. split; [congruence|done].
  - split; [congruence|]. split; [congruence|done].
Qed.

Lemma pulls_ca_frame (n : nat) :
  forall (g : ca_gen) (h : heap),
    ca_above k g ->
    length (pulls next_ca n g h).2 = length h
    /\ take k (pulls next_ca n g h).2 = take k h.
Proof using Type.
  induction n as [|n IH]; intros g h Hg; [done|].
  destruct (next_ca_frame g h Hg) as (L & T & A).
  cbn [pulls].
  destruct (next_ca g h) as [[[v|e|] g'] h']; cbn [fst snd] in *; [|done..].
  destruct (IH g' h' A) as [L' T'].
  destruct (pulls next_ca n g' h') as [[[vs|e|] g''] h'']; cbn [fst snd] in *;
    split; congruence.
Qed.

End Frame.

(** X9. [ca_code_gen] changes no list that was there before it, and
    creates its own lists at the first [next] only: the call creates
    nothing; the first [next] creates 36 lists (the 32 rows, the [[1]]
    and the ten 1s of [[1] * 10], and the two masks), or 35 before the
    [KeyError] when the SV id is not in 1..32; no later [next] creates
    any. *)
Theorem ca_code_gen_store (h : heap) (sv : Z) (n : nat) :
  (first_chips sv 0 h).2 = h
  /\ exists new : list (list Z),
       (first_chips sv (S n) h).2 = h ++ new
       /\ length new = if decide (1 <= sv <= 32) then 36%nat else 35%nat.
Proof.
  split; [done|].
  unfold first_chips, ca_code_gen. rewrite bind_ret. unfold collect.
  cbn [snd]. case_decide as Hsv.
  - destruct (init_codes_in_range sv Hsv) as [row Hrow].
    apply init_codes_lookup, list_elem_of_lookup in Hrow as [i Hi].
    set (hu := (h ++ init_code_rows.*2) ++ [[1]]).
    set (h4 := ((hu ++ [replicate 10 1]) ++ [lfsr1_taps]) ++ [lfsr2_taps]).
    set (g := CaRunning
                (LfsrLive (length hu) (length (hu ++ [replicate 10 1])))
                (LfsrLive (length h + i)
                   (length ((hu ++ [replicate 10 1]) ++ [lfsr1_taps])))).
    assert (pulls next_ca (S n) (CaCreated sv) h = pulls next_ca (S n) g h4)
      as ->.
    { cbn [pulls next_ca]. rewrite ca_setup_unfold.
      by rewrite (dict_locs_lookup _ _ _ i sv row init_code_keys_NoDup Hi). }
    assert (ca_above (length h) g) as Hg.
    { split; cbn [lfsr_above]; [unfold hu; rewrite !length_app|]; lia. }
    destruct (pulls_ca_frame (length h) (S n) g h4 Hg) as [L T].
    exists (drop (length h) (pulls next_ca (S n) g h4).2). split.
    + rewrite <- (take_drop (length h) (pulls next_ca (S n) g h4).2) at 1.
      f_equal. rewrite T. unfold h4, hu. rewrite <- !app_assoc.
      by rewrite take_app_length.
    + rewrite length_drop, L. unfold h4, hu.
      rewrite !length_app, length_fmap. simpl. lia.
  - exists (init_code_rows.*2 ++ [[1]; replicate 10 1; lfsr1_taps]).
    split; [|done].
    cbn [pulls next_ca]. by rewrite (ca_setup_KeyError h sv Hsv).
Qed.

(** * The demonstration *)

Lemma main_loop_rows (rs : list (Z * list Z)) :
  Forall (fun r => r ∈ init_code_rows) rs ->
  forall (h : heap) (out : list string),
    exists h',
      main_loop rs.*1 h out
      = (Ok tt, h',
         out ++ ((fun r : Z * list Z =>
                    format_line r.1 ((fun b => 1 - 2 * b) <$> reverse r.2))
                   <$> rs)).
Proof.
  induction 1 as [|[sv row] rs Hr Hrs IH]; intros h out.
  - exists h. simpl. by rewrite app_nil_r.
  - pose proof (first_chips_gold h sv row 10
                  (proj2 (init_codes_lookup sv row) Hr)) as Hchips.
    pose proof first_ten_of_rows as Hall. rewrite Forall_forall in Hall.
    specialize (Hall _ Hr). cbn [snd] in Hall. rewrite Hall in Hchips.
    cbn [fmap list_fmap fst main_loop].
    destruct (first_chips sv 10 h) as [o h1]. cbn [fst] in Hchips. subst o.
    destruct (IH h1 (out ++ [format_line sv ((fun b => 1 - 2 * b) <$> reverse row)]))
      as [h' Hloop].
    exists h'. rewrite Hloop. by rewrite <- app_assoc.
Qed.

(** X10. The demonstration raises nothing and prints 32 lines, one per
    row of the seed table in the order of the table: the SV id
    right-aligned in two columns, then the first ten chips of that SV,
    which are its row back to front with 0 shown as 1 and 1 as -1. *)
Theorem main_prints_table (h : heap) :
  exists (h' : list (list Z)) (out : list string),
    main h = (Ok tt, h', out)
    /\ out = (fun r : Z * list Z =>
                format_line r.1 ((fun b => 1 - 2 * b) <$> reverse r.2))
               <$> init_code_rows
    /\ length out = 32%nat
    /\ out !! 0%nat
       = Some "SV PRN:  1, first 10 chips: [1, 1, -1, -1, 1, -1, -1, -1, -1, -1]"%string
    /\ out !! 9%nat
       = Some "SV PRN: 10, first 10 chips: [1, 1, -1, 1, -1, -1, -1, 1, -1, -1]"%string.
Proof.
  destruct (main_loop_rows init_code_rows
              (proj2 (Forall_forall _ _) (fun r Hr => Hr)) h []) as [h' Hloop].
  exists h'. eexists. unfold main. rewrite <- init_code_keys. split; [exact Hloop|].
  split; [done|]. split; [done|]. split; by vm_compute.
Qed.

(** * More on [lfsr]: the recurrence of the values *)

Section Recurrence.

Variable t : list Z.

Lemma length_run_state (n : nat) :
  forall s, length (run_state t n s) = length s.
Proof using Type.
  induction n as [|n IH]; intros s; [done|].
  cbn [run_state]. by rewrite IH, length_step_state.
Qed.

(** What was in front of the last [length q] elements is still there,
    moved to the back, after [length q] steps. *)
Lemma run_state_prefix (q : list Z) :
  forall p, exists F, run_state t (length q) (p ++ q) = F ++ p.
Proof using Type.
  induction q as [|x q IH] using rev_ind; intros p.
  - exists []. simpl. by rewrite app_nil_r.
  - rewrite length_app, Nat.add_comm. cbn [length Nat.add run_state].
    rewrite app_assoc, step_state_snoc, app_comm_cons.
    destruct (IH (feedback ((p ++ q) ++ [x]) t :: p)) as [F HF].
    exists (F ++ [feedback ((p ++ q) ++ [x]) t]).
    rewrite HF. by rewrite <- (app_assoc F).
Qed.

(** The feedback of a step is the value yielded [length r] steps
    later. *)
Lemma step_out_after_length (r : list Z) :
  step_out (run_state t (length r) r) t = feedback r t.
Proof using Type.
  destruct r as [|x q _] using rev_ind; [done|].
  rewrite length_app, Nat.add_comm. cbn [length Nat.add run_state].
  rewrite step_state_snoc.
  destruct (run_state_prefix q [feedback (q ++ [x]) t]) as [F HF].
  change (feedback (q ++ [x]) t :: q) with ([feedback (q ++ [x]) t] ++ q).
  rewrite HF. apply step_out_snoc.
Qed.

Lemma run_out_recurrence (s : list Z) (n : nat) :
  let bits := run_out t (n + length s + 1) s in
  bits !! (n + length s)%nat
  = Some (feedback (reverse (take (length s) (drop n bits))) t).
Proof using Type.
  cbv zeta. set (r := run_state t n s).
  assert (length r = length s) as Hr by apply length_run_state.
  rewrite <- Nat.add_assoc, run_out_add. fold r. rewrite <- Hr.
  rewrite drop_app_length' by (by rewrite length_run_out).
  rewrite lookup_app_r by (rewrite length_run_out; lia).
  rewrite length_run_out. replace (n + length r - n)%nat with (length r) by lia.
  rewrite run_out_add. cbn [run_out].
  rewrite take_app_length' by (by rewrite length_run_out).
  pose proof (run_out_suffix t r []) as Hrev. cbn [app] in Hrev.
  rewrite Hrev, reverse_involutive.
  rewrite list_lookup_middle by (by rewrite length_reverse).
  by rewrite step_out_after_length.
Qed.

End Recurrence.

(** X11. After the seed has come out, every value of [lfsr] is the
    feedback of the [len(seed)] values before it, newest first: for
    [L = len(seed)] and every [n], value [n + L] is the XOR loop of
    [lfsr] run over the values [n + L - 1], ..., [n] and the taps. *)
Theorem lfsr_recurrence (h : heap) (sl tl : nat) (s t : list Z) (n : nat) :
  sl <> tl -> h !! sl = Some s -> h !! tl = Some t ->
  exists bits : list Z,
    (first_bits sl tl (n + length s + 1) h).1 = Ok bits
    /\ bits !! (n + length s)%nat
       = Some (feedback (reverse (take (length s) (drop n bits))) t).
Proof.
  intros Hne Hs Ht. exists (run_out t (n + length s + 1) s).
  rewrite (first_bits_run h sl tl s t) by done.
  split; [done|]. apply run_out_recurrence.
Qed.

Lemma lfsr_recurrence_witness :
  exists bits : list Z,
    (first_bits 0 1 (5 + length [1; 0; 1; 1] + 1)
       [[1; 0; 1; 1]; [0; 1; 0; 1]]).1 = Ok bits
    /\ bits !! (5 + length [1; 0; 1; 1])%nat
       = Some (feedback (reverse (take (length [1; 0; 1; 1]) (drop 5 bits)))
                 [0; 1; 0; 1]).
Proof.
  apply (lfsr_recurrence [[1; 0; 1; 1]; [0; 1; 0; 1]] 0 1
           [1; 0; 1; 1] [0; 1; 0; 1] 5);
    [discriminate|reflexivity|reflexivity].
Defined.

(** * More on [ca_code_gen]: the period, at every chip *)

Lemma gold_chips_prefix (n m : nat) (s1 s2 : list Z) (i : nat) :
  (i < n)%nat -> (n <= m)%nat ->
  gold_chips m s1 s2 !! i = gold_chips n s1 s2 !! i.
Proof.
  intros Hi Hnm. replace m with (n + (m - n))%nat by lia.
  rewrite gold_chips_add, lookup_app_l; [done|].
  by rewrite length_gold_chips.
Qed.

(** X12. The code repeats throughout, not only once: for every SV id
    1..32, however many chips are pulled, chip [i + 1023] is chip [i]
    whenever both are among them. *)
Theorem ca_code_gen_periodic (h : heap) (sv : Z) (n i : nat) :
  1 <= sv <= 32 -> (i + 1023 < n)%nat ->
  exists (chips : list Z) (c : Z),
    (first_chips sv n h).1 = Ok chips
    /\ chips !! i = Some c /\ chips !! (i + 1023)%nat = Some c.
Proof.
  intros Hsv Hi. destruct (init_codes_in_range sv Hsv) as [row Hrow].
  exists (gold_chips n (replicate 10 1) row).
  destruct (lookup_lt_is_Some_2 (gold_chips n (replicate 10 1) row) i)
    as [c Hc]; [rewrite length_gold_chips; lia|].
  exists c. split; [by apply first_chips_gold|]. split; [done|].
  rewrite <- Hc.
  replace n with (1023 + (n - 1023))%nat at 1 by lia.
  rewrite (gold_chips_period sv row _ Hrow).
  rewrite lookup_app_r by (rewrite length_gold_chips; lia).
  rewrite length_gold_chips.
  replace (i + 1023 - 1023)%nat with i by lia.
  symmetry. apply gold_chips_prefix; lia.
Qed.

Lemma ca_code_gen_periodic_witness :
  1 <= 2 <= 32 /\ (3000 + 1023 < 4500)%nat /\
  exists (chips : list Z) (c : Z),
    (first_chips 2 4500 []).1 = Ok chips
    /\ chips !! 3000%nat = Some c /\ chips !! (3000 + 1023)%nat = Some c.
Proof.
  split; [lia|]. split; [lia|].
  apply (ca_code_gen_periodic [] 2 4500 3000); lia.
Defined.
